(** * Reels ranking dashboard: metric derivation, ranking, filtering, paging

    A shallow embedding of [src/components/ReelsRankingDashboard.jsx].

    - JavaScript numbers are IEEE 754 binary64 values: Rocq's primitive
      [float], with [PrimFloat.add], [sub], [mul], [div] and the comparisons
      of the kernel.  [Math.log10] is left as a parameter of the metric
      deriver.
    - Strings are [string]s.  [String.prototype.toLowerCase] maps by the
      Unicode tables, and not character by character; it is left as a
      parameter of the filter, so that what is proved of the filter holds
      for every mapping.  [asciiToLowerCase], the mapping of the letters A
      to Z, is the instance on the sample data, which are ASCII.
    - Arrays are lists.  [Array.prototype.slice] is written out with its
      relative (negative) indices and its clamping.  [Array.prototype.sort]
      is the algorithm of V8 for an array of fewer than 64 elements: the
      initial run, then binary insertion, driven by the test
      [comparefn(x, y) < 0], a [NaN] result counting as [+0] as ECMAScript
      prescribes.  When the comparator is not consistent (a metric is
      [NaN]) the order is what this algorithm gives; when it is
      consistent, the result of a stable sort is unique ([sort_unique]),
      whatever the algorithm and the length of the array.
    - A [TypeError] (a method called on [undefined]) is the [None] of an
      [option] result. *)

From Stdlib Require Import ZArith Lia Bool List String Ascii Floats.
From Stdlib Require Import Sorted Permutation.
Import ListNotations.
Local Open Scope Z_scope.

(** ** JavaScript numbers *)

(** [rank_sf] embeds the non-NaN binary64 values into the integers, in
    units of the smallest subnormal; it is monotone and identifies the two
    zeros, so it decides every comparison between numbers. *)
Definition rank_sf (x : spec_float) : Z :=
  match x with
  | S754_zero _ => 0
  | S754_nan => 0
  | S754_infinity s => cond_Zopp s (2 ^ (emax - emin))
  | S754_finite s m e => cond_Zopp s (Zpos m * 2 ^ (e - emin))
  end.

Definition sf_is_nan (x : spec_float) : bool :=
  match x with S754_nan => true | _ => false end.

Definition sf_sign_is (s : bool) (x : spec_float) : Prop :=
  match x with
  | S754_finite s' _ _ | S754_infinity s' => s' = s
  | _ => False
  end.

Definition rank (x : float) : Z := rank_sf (Prim2SF x).

(** ** JavaScript arrays *)

Section JsArray.
Context {A : Type}.

(** The relative index of [Array.prototype.slice]: a negative index counts
    from the end, and the result is clamped to [0 .. len]. *)
Definition relIndex (len i : Z) : Z :=
  if i <? 0 then Z.max (len + i) 0 else Z.min i len.

(** [arr.slice(start, end)]. *)
Definition slice (start end_ : Z) (l : list A) : list A :=
  let len := Z.of_nat (List.length l) in
  let k := relIndex len start in
  let final := relIndex len end_ in
  firstn (Z.to_nat (final - k)) (skipn (Z.to_nat k) l).

(** [arr.sort(comparefn)] as the engine runs it (V8's [ArrayTimSort], which
    Node and Chrome use), for arrays of fewer than 64 elements: the file's
    arrays are short, and a longer array is cut into such runs that are then
    merged.  The only question ever put to the comparator is
    [comparefn(x, y) < 0]: does [x] sort before [y]?  A [NaN] result
    answers no. *)
Definition sortsBefore (comparefn : A -> A -> float) (x y : A) : bool :=
  (comparefn x y <? 0)%float.

(** The loop of [CountAndMakeRun]: the run goes on while each element
    against the one before it answers as the first pair did. *)
Fixpoint extendRun (comparefn : A -> A -> float) (isDescending : bool)
  (previousElement : A) (l : list A) : list A * list A :=
  match l with
  | [] => ([], [])
  | currentElement :: l' =>
      let before := sortsBefore comparefn currentElement previousElement in
      if (if isDescending then negb before else before) then ([], l)
      else
        let (run, rest) := extendRun comparefn isDescending currentElement l' in
        (currentElement :: run, rest)
  end.

(** [CountAndMakeRun]: the longest initial run, reversed in place when it
    is strictly descending; and the elements behind it. *)
Definition countAndMakeRun (comparefn : A -> A -> float) (l : list A)
  : list A * list A :=
  match l with
  | elementHigh :: elementLow :: l' =>
      let isDescending := sortsBefore comparefn elementLow elementHigh in
      let (run, rest) := extendRun comparefn isDescending elementLow l' in
      let whole := elementHigh :: elementLow :: run in
      (if isDescending then rev whole else whole, rest)
  | _ => (l, [])
  end.

(** The search of [BinaryInsertionSort] for the place of [pivot] in the
    sorted part: between [left] and [right], halving. *)
Fixpoint binarySearch (fuel : nat) (comparefn : A -> A -> float) (pivot : A)
  (sorted : list A) (left right : nat) : nat :=
  match fuel with
  | O => left
  | S fuel' =>
      if (left <? right)%nat then
        let mid := (left + (right - left) / 2)%nat in
        match nth_error sorted mid with
        | Some e =>
            if sortsBefore comparefn pivot e
            then binarySearch fuel' comparefn pivot sorted left mid
            else binarySearch fuel' comparefn pivot sorted (mid + 1) right
        | None => left
        end
      else left
  end.

(** One step of [BinaryInsertionSort]: [pivot] moves to its place. *)
Definition binaryInsert (comparefn : A -> A -> float) (sorted : list A)
  (pivot : A) : list A :=
  let left :=
    binarySearch (List.length sorted) comparefn pivot sorted 0 (List.length sorted) in
  firstn left sorted ++ pivot :: skipn left sorted.

(** [arr.sort(comparefn)] on a copy of the array. *)
Definition sort (comparefn : A -> A -> float) (l : list A) : list A :=
  let (run, rest) := countAndMakeRun comparefn l in
  fold_left (binaryInsert comparefn) rest run.

(** [arr.filter(p)] where the callback may throw. *)
Fixpoint filterE (p : A -> option bool) (l : list A) : option (list A) :=
  match l with
  | [] => Some []
  | x :: l' =>
      match p x with
      | None => None
      | Some b =>
          match filterE p l' with
          | None => None
          | Some r => Some (if b then x :: r else r)
          end
      end
  end.

(** [arr.map(f)] where the callback may throw. *)
Fixpoint mapE {B : Type} (f : A -> option B) (l : list A) : option (list B) :=
  match l with
  | [] => Some []
  | x :: l' =>
      match f x with
      | None => None
      | Some y =>
          match mapE f l' with
          | None => None
          | Some r => Some (y :: r)
          end
      end
  end.

End JsArray.

(** ** JavaScript strings *)

Definition isUpper (c : ascii) : bool :=
  (65 <=? nat_of_ascii c)%nat && (nat_of_ascii c <=? 90)%nat.

Definition toLowerChar (c : ascii) : ascii :=
  if isUpper c then ascii_of_nat (nat_of_ascii c + 32) else c.

(** [s.toLowerCase()] on an ASCII string: the letters A to Z, one by one.
    Outside ASCII the mapping of the engine is the one of Unicode, which
    is not a mapping of single characters; it is a parameter of the
    filter below, and this function is one instance of it. *)
Fixpoint asciiToLowerCase (s : string) : string :=
  match s with
  | EmptyString => EmptyString
  | String c s' => String (toLowerChar c) (asciiToLowerCase s')
  end.

(** [s.includes(f)]. *)
Fixpoint includes (s f : string) : bool :=
  if prefix f s then true
  else match s with
       | EmptyString => false
       | String _ s' => includes s' f
       end.

(** [s.split(sep)] for a one-character separator: never the empty list. *)
Fixpoint split (sep : ascii) (s : string) : list string :=
  match s with
  | EmptyString => [EmptyString]
  | String c s' =>
      if Ascii.eqb c sep then EmptyString :: split sep s'
      else match split sep s' with
           | seg :: rest => String c seg :: rest
           | [] => [String c EmptyString]
           end
  end.

(** [s.slice(start, end)]: the same relative indices as for arrays. *)
Definition strSlice (start end_ : Z) (s : string) : string :=
  let len := Z.of_nat (String.length s) in
  let k := relIndex len start in
  let final := relIndex len end_ in
  substring (Z.to_nat k) (Z.to_nat (final - k)) s.

(** ** lodash [sumBy] and [meanBy] *)

(** [baseSum]: the sum starts from the first value, not from zero. *)
Definition baseSum {A : Type} (iteratee : A -> float) (l : list A) : option float :=
  match l with
  | [] => None
  | x :: l' => Some (fold_left (fun acc y => (acc + iteratee y)%float) l' (iteratee x))
  end.

Definition sumBy {A : Type} (l : list A) (iteratee : A -> float) : float :=
  match baseSum iteratee l with
  | Some s => s
  | None => 0%float
  end.

Definition meanBy {A : Type} (l : list A) (iteratee : A -> float) : float :=
  match baseSum iteratee l with
  | Some s => (s / of_uint63 (Uint63.of_Z (Z.of_nat (List.length l))))%float
  | None => nan
  end.

(** ** The dashboard *)

(** A parsed CSV row ([header: true, dynamicTyping: true]): the Reel URL is
    a string and the three counts are numbers. *)
Record Row := {
  Reel : string;
  Views : float;
  Likes : float;
  Comments : float
}.

(** A processed record: the row ([...row]) and the derived fields.
    [ShortUrl] is [None] when the expression yields [undefined]. *)
Record ReelRecord := {
  row : Row;
  id : Z;
  EngagementRate : float;
  EngagementScore : float;
  ViralCoefficient : float;
  ShortUrl : option string
}.

(** [row.Reel.split('/').slice(-2, -1)[0]]. *)
Definition shortUrl (reel : string) : option string :=
  nth_error (slice (-2) (-1) (split "/" reel)) 0.

Section MetricDeriver.
Variable log10 : float -> float.

(** The body of [results.data.map((row, index) => ...)]. *)
Definition processRow (index : Z) (r : Row) : ReelRecord :=
  let engagementRate := ((Likes r + Comments r) / Views r * 100)%float in
  let engagementScore := ((Likes r * 1 + Comments r * 3) / Views r * 100)%float in
  let viralCoefficient := (log10 (Views r) * engagementRate / 100)%float in
  {| row := r;
     id := index + 1;
     EngagementRate := engagementRate;
     EngagementScore := engagementScore;
     ViralCoefficient := viralCoefficient;
     ShortUrl := shortUrl (Reel r) |}.

Fixpoint mapIndexed (index : Z) (rows : list Row) : list ReelRecord :=
  match rows with
  | [] => []
  | r :: rows' => processRow index r :: mapIndexed (index + 1) rows'
  end.

Definition processedData (rows : list Row) : list ReelRecord :=
  mapIndexed 0 rows.

End MetricDeriver.

(** The six options of the "Rank By" selector. *)
Inductive Metric :=
  | ByViews | ByLikes | ByComments
  | ByEngagementRate | ByEngagementScore | ByViralCoefficient.

(** [a[rankingMetric]]. *)
Definition getMetric (m : Metric) (a : ReelRecord) : float :=
  match m with
  | ByViews => Views (row a)
  | ByLikes => Likes (row a)
  | ByComments => Comments (row a)
  | ByEngagementRate => EngagementRate a
  | ByEngagementScore => EngagementScore a
  | ByViralCoefficient => ViralCoefficient a
  end.

Inductive SortOrder := asc | desc.

(** An entry of [top10Data]: the record and its [DisplayUrl]. *)
Record Top10Entry := {
  reel : ReelRecord;
  DisplayUrl : string
}.

Definition rowsPerPage : Z := 10.

(** The comparator of the table. *)
Definition tableCompare (sortOrder : SortOrder) (rankingMetric : Metric)
  (a b : ReelRecord) : float :=
  match sortOrder with
  | asc => (getMetric rankingMetric a - getMetric rankingMetric b)%float
  | desc => (getMetric rankingMetric b - getMetric rankingMetric a)%float
  end.

(** [[...data].sort((a, b) => b[rankingMetric] - a[rankingMetric])]. *)
Definition rankedData (data : list ReelRecord) (rankingMetric : Metric) : list ReelRecord :=
  sort (fun a b => (getMetric rankingMetric b - getMetric rankingMetric a)%float) data.

(** [reel => ({...reel, DisplayUrl: reel.ShortUrl.slice(-5)})]. *)
Definition withDisplayUrl (r : ReelRecord) : option Top10Entry :=
  match ShortUrl r with
  | None => None
  | Some s =>
      Some {| reel := r;
              DisplayUrl := strSlice (-5) (Z.of_nat (String.length s)) s |}
  end.

Definition newTop10 (data : list ReelRecord) (rankingMetric : Metric)
  : option (list Top10Entry) :=
  mapE withDisplayUrl (slice 0 10 (rankedData data rankingMetric)).

(** The effect on [data] and [rankingMetric]: [top10Data] is replaced only
    when there is data. *)
Definition updateTop10 (data : list ReelRecord) (rankingMetric : Metric)
  (top10Data : list Top10Entry) : option (list Top10Entry) :=
  if (0 <? Z.of_nat (List.length data)) then newTop10 data rankingMetric
  else Some top10Data.

Section Filter.
(** [String.prototype.toLowerCase]. *)
Variable toLowerCase : string -> string.

(** The predicate of [data.filter(item => ...)], with the short-circuit
    evaluation of [||]. *)
Definition matchesFilter (filterValue : string) (item : ReelRecord) : option bool :=
  if String.eqb filterValue EmptyString then Some true
  else if includes (toLowerCase (Reel (row item))) (toLowerCase filterValue)
  then Some true
  else match ShortUrl item with
       | None => None
       | Some s => Some (includes (toLowerCase s) (toLowerCase filterValue))
       end.

Definition filteredData (data : list ReelRecord) (filterValue : string)
  (sortOrder : SortOrder) (rankingMetric : Metric) : option (list ReelRecord) :=
  match filterE (matchesFilter filterValue) data with
  | None => None
  | Some l => Some (sort (tableCompare sortOrder rankingMetric) l)
  end.

End Filter.

(** [filteredData.slice((page - 1) * rowsPerPage, page * rowsPerPage)]. *)
Definition paginatedData (filtered : list ReelRecord) (page : Z) : list ReelRecord :=
  slice ((page - 1) * rowsPerPage) (page * rowsPerPage) filtered.

(** The "Previous" and "Next" buttons. *)
Definition previousPage (p : Z) : Z := Z.max 1 (p - 1).

Definition nextPage (filteredLength : Z) (p : Z) : Z :=
  if p * rowsPerPage <? filteredLength then p + 1 else p.

(** The statistics shown above the charts. *)
Record Stats := {
  totalViews : float;
  totalLikes : float;
  totalComments : float;
  avgEngagementRate : float;
  avgEngagementScore : float
}.

Definition stats (data : list ReelRecord) : Stats :=
  {| totalViews := sumBy data (fun r => Views (row r));
     totalLikes := sumBy data (fun r => Likes (row r));
     totalComments := sumBy data (fun r => Comments (row r));
     avgEngagementRate := meanBy data EngagementRate;
     avgEngagementScore := meanBy data EngagementScore |}.

(** The part of the component state that the loader writes. *)
Record State := {
  data : list ReelRecord;
  loading : bool
}.

Definition initialState : State := {| data := []; loading := true |}.

(** A row as the parser hands it to [complete]: with [dynamicTyping] the
    Reel cell is a string, or something else (a number, a boolean, a date,
    [null] for an empty cell, [undefined] for a missing one), which is
    [None] here; the three counts are numbers. *)
Record ParsedRow := {
  reelCell : option string;
  viewsCell : float;
  likesCell : float;
  commentsCell : float
}.

(** The row when [row.Reel.split] exists; only a string has this method,
    on anything else the call is a [TypeError]. *)
Definition typedRow (r : ParsedRow) : option Row :=
  match reelCell r with
  | Some reel =>
      Some {| Reel := reel; Views := viewsCell r;
              Likes := likesCell r; Comments := commentsCell r |}
  | None => None
  end.

(** How the fetch-and-parse step ends: an exception of [fetch] or of the
    parser reaches the [catch], or the parser calls [complete] with the
    rows. *)
Inductive FetchOutcome :=
  | FetchFailed
  | ParseComplete (rows : list ParsedRow).

Section Loader.
Variable log10 : float -> float.

(** [complete] runs inside the [try]: a [TypeError] of the map callback
    comes before [setData] and ends in the [catch] as well, which only
    clears [loading]. *)
Definition fetchData (outcome : FetchOutcome) (s : State) : State :=
  match outcome with
  | ParseComplete rows =>
      match mapE typedRow rows with
      | Some typed => {| data := processedData log10 typed; loading := false |}
      | None => {| data := data s; loading := false |}
      end
  | FetchFailed =>
      {| data := data s; loading := false |}
  end.

End Loader.

(** ** The vocabulary of the specification *)

(** [f] occurs in [s]. *)
Definition isSubstring (f s : string) : Prop :=
  exists pre post, s = (pre ++ f ++ post)%string.

(** [f] occurs in [s] up to case: it does once both are lower-cased. *)
Definition isSubstringIgnoringCase (toLowerCase : string -> string)
  (f s : string) : Prop :=
  isSubstring (toLowerCase f) (toLowerCase s).

(** On ASCII, what this comes to letter by letter: two characters that are
    equal, or the upper-case and the lower-case form of one letter. *)
Definition sameLetter (c d : ascii) : Prop :=
  c = d \/
  (isUpper c = true /\ nat_of_ascii d = (nat_of_ascii c + 32)%nat) \/
  (isUpper d = true /\ nat_of_ascii c = (nat_of_ascii d + 32)%nat).

Inductive equalIgnoringCase : string -> string -> Prop :=
  | eic_empty : equalIgnoringCase EmptyString EmptyString
  | eic_char c d s t :
      sameLetter c d -> equalIgnoringCase s t ->
      equalIgnoringCase (String c s) (String d t).

(** A part of [s] is [f] up to the case of its letters. *)
Definition occursIgnoringCase (f s : string) : Prop :=
  exists pre mid post,
    s = (pre ++ mid ++ post)%string /\ equalIgnoringCase mid f.

(** A segment: a string without "/". *)
Definition noSlash (s : string) : Prop := ~ isSubstring "/" s.

(** The specification's wording for [ShortUrl]: the second-from-last of the
    non-empty segments. *)
Definition shortUrl_nonEmptySegments (reel : string) : option string :=
  nth_error
    (rev (filter (fun seg => negb (String.eqb seg EmptyString)) (split "/" reel)))
    1.

(** The pages [1 .. n]. *)
Definition pageNumbers (n : nat) : list Z := map Z.of_nat (seq 1 n).

(** [ceil(N / 10)] for a list of [N] rows. *)
Definition pageCount {A : Type} (l : list A) : nat :=
  (List.length l + 9) / 10.

(** Descending order of the entries of the top 10 by a metric. *)
Definition sortedDescending (m : Metric) (t : list Top10Entry) : Prop :=
  StronglySorted
    (fun a b => (getMetric m (reel b) <=? getMetric m (reel a))%float = true) t.

(** ** Sample data *)

(** The worked example of the specification. *)
Definition exampleRow : Row :=
  {| Reel := "https://x/y/aaa111"; Views := 1000; Likes := 100; Comments := 10 |}.

(** A stand-in for [Math.log10] where a concrete function is needed; the
    sample properties below do not depend on the viral coefficient. *)
Definition sampleLog10 (x : float) : float := 0%float.

(** Three reels, the second with no views at all: its rates are [0 / 0]. *)
Definition zeroViewsRows : list Row :=
  [ {| Reel := "https://x/y/a1"; Views := 100; Likes := 1; Comments := 0 |};
    {| Reel := "https://x/y/a2"; Views := 0; Likes := 0; Comments := 0 |};
    {| Reel := "https://x/y/a3"; Views := 100; Likes := 2; Comments := 0 |} ].

Definition zeroViewsData : list ReelRecord :=
  [ {| row := {| Reel := "https://x/y/a1"; Views := 100; Likes := 1; Comments := 0 |};
       id := 1; EngagementRate := 1; EngagementScore := 1;
       ViralCoefficient := (2 * 1 / 100)%float; ShortUrl := Some "y"%string |};
    {| row := {| Reel := "https://x/y/a2"; Views := 0; Likes := 0; Comments := 0 |};
       id := 2; EngagementRate := nan; EngagementScore := nan;
       ViralCoefficient := nan; ShortUrl := Some "y"%string |};
    {| row := {| Reel := "https://x/y/a3"; Views := 100; Likes := 2; Comments := 0 |};
       id := 3; EngagementRate := 2; EngagementScore := 2;
       ViralCoefficient := (2 * 2 / 100)%float; ShortUrl := Some "y"%string |} ].

(** Seven reels, the second and the fourth with no views: the rates are
    2, NaN, 1, NaN, 2, 3, 2. *)
Definition nanTieRows : list Row :=
  [ {| Reel := "https://x/y/a1"; Views := 100; Likes := 2; Comments := 0 |};
    {| Reel := "https://x/y/a2"; Views := 0; Likes := 0; Comments := 0 |};
    {| Reel := "https://x/y/a3"; Views := 100; Likes := 1; Comments := 0 |};
    {| Reel := "https://x/y/a4"; Views := 0; Likes := 0; Comments := 0 |};
    {| Reel := "https://x/y/a5"; Views := 100; Likes := 2; Comments := 0 |};
    {| Reel := "https://x/y/a6"; Views := 100; Likes := 3; Comments := 0 |};
    {| Reel := "https://x/y/a7"; Views := 100; Likes := 2; Comments := 0 |} ].

Definition nanTieData : list ReelRecord :=
  [ {| row := {| Reel := "https://x/y/a1"; Views := 100; Likes := 2; Comments := 0 |};
       id := 1; EngagementRate := 2; EngagementScore := 2;
       ViralCoefficient := (2 * 2 / 100)%float; ShortUrl := Some "y"%string |};
    {| row := {| Reel := "https://x/y/a2"; Views := 0; Likes := 0; Comments := 0 |};
       id := 2; EngagementRate := nan; EngagementScore := nan;
       ViralCoefficient := nan; ShortUrl := Some "y"%string |};
    {| row := {| Reel := "https://x/y/a3"; Views := 100; Likes := 1; Comments := 0 |};
       id := 3; EngagementRate := 1; EngagementScore := 1;
       ViralCoefficient := (2 * 1 / 100)%float; ShortUrl := Some "y"%string |};
    {| row := {| Reel := "https://x/y/a4"; Views := 0; Likes := 0; Comments := 0 |};
       id := 4; EngagementRate := nan; EngagementScore := nan;
       ViralCoefficient := nan; ShortUrl := Some "y"%string |};
    {| row := {| Reel := "https://x/y/a5"; Views := 100; Likes := 2; Comments := 0 |};
       id := 5; EngagementRate := 2; EngagementScore := 2;
       ViralCoefficient := (2 * 2 / 100)%float; ShortUrl := Some "y"%string |};
    {| row := {| Reel := "https://x/y/a6"; Views := 100; Likes := 3; Comments := 0 |};
       id := 6; EngagementRate := 3; EngagementScore := 3;
       ViralCoefficient := (2 * 3 / 100)%float; ShortUrl := Some "y"%string |};
    {| row := {| Reel := "https://x/y/a7"; Views := 100; Likes := 2; Comments := 0 |};
       id := 7; EngagementRate := 2; EngagementScore := 2;
       ViralCoefficient := (2 * 2 / 100)%float; ShortUrl := Some "y"%string |} ].

(** Twelve reels with different views, not in order. *)
Definition twelveRows : list Row :=
  [ {| Reel := "https://x/y/b01"; Views := 600; Likes := 6; Comments := 1 |};
    {| Reel := "https://x/y/b02"; Views := 1200; Likes := 2; Comments := 1 |};
    {| Reel := "https://x/y/b03"; Views := 100; Likes := 3; Comments := 1 |};
    {| Reel := "https://x/y/b04"; Views := 900; Likes := 9; Comments := 1 |};
    {| Reel := "https://x/y/b05"; Views := 300; Likes := 5; Comments := 1 |};
    {| Reel := "https://x/y/b06"; Views := 1000; Likes := 1; Comments := 1 |};
    {| Reel := "https://x/y/b07"; Views := 500; Likes := 7; Comments := 1 |};
    {| Reel := "https://x/y/b08"; Views := 200; Likes := 8; Comments := 1 |};
    {| Reel := "https://x/y/b09"; Views := 800; Likes := 4; Comments := 1 |};
    {| Reel := "https://x/y/b10"; Views := 400; Likes := 10; Comments := 1 |};
    {| Reel := "https://x/y/b11"; Views := 1100; Likes := 11; Comments := 1 |};
    {| Reel := "https://x/y/b12"; Views := 700; Likes := 12; Comments := 1 |} ].

(** Two reels; the identifier of the first is the host of the second. *)
Definition hostRows : list Row :=
  [ {| Reel := "https://x/abc/1"; Views := 100; Likes := 1; Comments := 1 |};
    {| Reel := "https://abc/xyz/2"; Views := 1000; Likes := 5; Comments := 5 |} ].

Definition hostData : list ReelRecord :=
  [ {| row := {| Reel := "https://x/abc/1"; Views := 100; Likes := 1; Comments := 1 |};
       id := 1; EngagementRate := 2; EngagementScore := 4;
       ViralCoefficient := (2 * 2 / 100)%float; ShortUrl := Some "abc"%string |};
    {| row := {| Reel := "https://abc/xyz/2"; Views := 1000; Likes := 5; Comments := 5 |};
       id := 2; EngagementRate := 1; EngagementScore := 2;
       ViralCoefficient := (3 * 1 / 100)%float; ShortUrl := Some "xyz"%string |} ].

(** A record whose Reel has no "/": its ShortUrl is undefined. *)
Definition bareRecord : ReelRecord :=
  {| row := {| Reel := "abc"; Views := 100; Likes := 1; Comments := 1 |};
     id := 1; EngagementRate := 2; EngagementScore := 4;
     ViralCoefficient := (2 * 2 / 100)%float; ShortUrl := None |}.

(** Two reels with the same number of views. *)
Definition tiedRows : list Row :=
  [ {| Reel := "https://x/r1/"; Views := 50; Likes := 5; Comments := 1 |};
    {| Reel := "https://x/r2/"; Views := 50; Likes := 7; Comments := 2 |} ].

(** ** The rest of the component: formatting, labels, paging controls,
    the detail popover *)

Section Formatting.
(** [Number.prototype.toFixed], left to the platform. *)
Variable toFixed : float -> nat -> string.

(** [formatNumber]: a string with a suffix, or the number itself. *)
Definition formatNumber (num : float) : string + float :=
  if (1000000000 <=? num)%float
  then inl (toFixed (num / 1000000000)%float 1 ++ "B")%string
  else if (1000000 <=? num)%float
  then inl (toFixed (num / 1000000)%float 1 ++ "M")%string
  else if (1000 <=? num)%float
  then inl (toFixed (num / 1000)%float 1 ++ "K")%string
  else inr num.

End Formatting.

(** The [value] of each option of the "Rank By" selector. *)
Definition metricKey (m : Metric) : string :=
  match m with
  | ByViews => "Views"
  | ByLikes => "Likes"
  | ByComments => "Comments"
  | ByEngagementRate => "EngagementRate"
  | ByEngagementScore => "EngagementScore"
  | ByViralCoefficient => "ViralCoefficient"
  end.

(** [getMetricLabel], a [switch] on the string. *)
Definition getMetricLabel (metric : string) : string :=
  if (metric =? "Views")%string then "Views"
  else if (metric =? "Likes")%string then "Likes"
  else if (metric =? "Comments")%string then "Comments"
  else if (metric =? "EngagementRate")%string then "Engagement Rate (%)"
  else if (metric =? "EngagementScore")%string then "Engagement Score"
  else if (metric =? "ViralCoefficient")%string then "Viral Coefficient"
  else metric.

Section TooltipFormatters.
Variable toFixed : float -> nat -> string.

(** The [formatter] of the bar chart's tooltip: the shown value and the
    shown name, from the value and the name of the bar. *)
Definition barTooltipFormatter (value : float) (name : string)
  : (string + float) * string :=
  (if (name =? "EngagementRate")%string || (name =? "EngagementScore")%string
   then inl (toFixed value 2)
   else formatNumber toFixed value,
   getMetricLabel name).

(** The [formatter] of the line chart's tooltip. *)
Definition lineTooltipFormatter (value : float) (name : string)
  : (string + float) * string :=
  (if (name =? "EngagementScore")%string
   then inl (toFixed value 2)
   else formatNumber toFixed value,
   if (name =? "EngagementScore")%string
   then "Engagement Score"%string
   else "Views"%string).

End TooltipFormatters.

(** The [name] given to the bar, and to the two lines. *)
Definition barName (rankingMetric : Metric) : string :=
  getMetricLabel (metricKey rankingMetric).

Definition lineNames : list string := ["Views"%string; "Engagement Score"%string].

(** The selections of the controls and the page. *)
Record View := {
  rankingMetric : Metric;
  sortOrder : SortOrder;
  filterValue : string;
  page : Z
}.

Definition initialView : View :=
  {| rankingMetric := ByEngagementScore; sortOrder := desc;
     filterValue := EmptyString; page := 1 |}.

Inductive ViewEvent :=
  | SetRankingMetric (m : Metric)
  | SetSortOrder (o : SortOrder)
  | SetFilterValue (f : string)
  | Previous
  | Next.

(** The handlers of the controls, as created by a render in which
    [filteredData.length] is [filteredLength]. *)
Definition handleViewEvent (filteredLength : Z) (v : View) (ev : ViewEvent) : View :=
  match ev with
  | SetRankingMetric m =>
      {| rankingMetric := m; sortOrder := sortOrder v;
         filterValue := filterValue v; page := page v |}
  | SetSortOrder o =>
      {| rankingMetric := rankingMetric v; sortOrder := o;
         filterValue := filterValue v; page := page v |}
  | SetFilterValue f =>
      {| rankingMetric := rankingMetric v; sortOrder := sortOrder v;
         filterValue := f; page := page v |}
  | Previous =>
      {| rankingMetric := rankingMetric v; sortOrder := sortOrder v;
         filterValue := filterValue v; page := previousPage (page v) |}
  | Next =>
      {| rankingMetric := rankingMetric v; sortOrder := sortOrder v;
         filterValue := filterValue v;
         page := nextPage filteredLength (page v) |}
  end.

(** [disabled] of the two buttons. *)
Definition previousDisabled (p : Z) : bool := p =? 1.

Definition nextDisabled (filteredLength p : Z) : bool :=
  filteredLength <=? p * rowsPerPage.

(** "Showing [from] to [to] of [n] results", and the rank shown in a row. *)
Definition showingFrom (p : Z) : Z := (p - 1) * rowsPerPage + 1.

Definition showingTo (filteredLength p : Z) : Z :=
  Z.min (p * rowsPerPage) filteredLength.

Definition rowRank (p index : Z) : Z := (p - 1) * rowsPerPage + index + 1.

(** What a chart hands to [onClick]: [activeLabel], [chartX] and [chartY]
    may be missing. *)
Record ChartEvent := {
  activeLabel : option string;
  chartX : option float;
  chartY : option float
}.

Record Position := { x : float; y : float }.

Record Selection := {
  selectedReel : option Top10Entry;
  tooltipPosition : Position
}.

Definition initialSelection : Selection :=
  {| selectedReel := None; tooltipPosition := {| x := 0; y := 0 |} |}.

(** A number is truthy unless it is [0], [-0] or [NaN]. *)
Definition truthyNumber (v : float) : bool :=
  negb (v =? 0)%float && negb (is_nan v).

(** [v || d] for a number that may be missing. *)
Definition orDefault (v : option float) (d : float) : float :=
  match v with
  | Some f => if truthyNumber f then f else d
  | None => d
  end.

(** [handleChartClick]; the event itself may be [null]. *)
Definition handleChartClick (top10Data : list Top10Entry)
  (data : option ChartEvent) (s : Selection) : Selection :=
  match data with
  | None => s
  | Some d =>
      match activeLabel d with
      | None => s
      | Some label =>
          if (label =? "")%string then s
          else
            match find (fun item => (DisplayUrl item =? label)%string) top10Data with
            | Some r =>
                {| selectedReel := Some r;
                   tooltipPosition :=
                     {| x := orDefault (chartX d) 100;
                        y := orDefault (chartY d) 100 |} |}
            | None => s
            end
      end
  end.

(** The events of the popover: a click on a chart, a [mousedown] anywhere
    ([None] when the popover is not mounted, else whether the popover
    contains the target), and its close button. *)
Inductive PopoverEvent :=
  | ChartClick (data : option ChartEvent)
  | MouseDown (contained : option bool)
  | CloseClick.

Definition clearSelection (s : Selection) : Selection :=
  {| selectedReel := None; tooltipPosition := tooltipPosition s |}.

Definition handlePopoverEvent (top10Data : list Top10Entry)
  (s : Selection) (ev : PopoverEvent) : Selection :=
  match ev with
  | ChartClick data => handleChartClick top10Data data s
  | MouseDown (Some false) => clearSelection s
  | MouseDown _ => s
  | CloseClick => clearSelection s
  end.

(** * Facts about JavaScript numbers

    The comparisons and the sign of a difference, read off the
    specification of the binary64 operations. *)

Lemma digits2_pos_size p : digits2_pos p = Pos.size p.
Proof. induction p; simpl; congruence. Qed.

Lemma digits2_bounds p :
  2 ^ (Zpos (digits2_pos p) - 1) <= Zpos p < 2 ^ Zpos (digits2_pos p).
Proof.
  rewrite digits2_pos_size. split.
  - pose proof (Pos.size_le p) as H.
    assert (H2 : 2 ^ Zpos (Pos.size p) <= 2 * Zpos p).
    { change 2 with (Zpos 2) at 1. rewrite <- Pos2Z.inj_pow. 
      change (2 * Zpos p) with (Zpos (p~0)). apply Pos2Z.pos_le_pos. exact H. }
    replace (Zpos (Pos.size p)) with (Z.succ (Zpos (Pos.size p) - 1)) in H2 by lia.
    rewrite Z.pow_succ_r in H2 by lia. lia.
  - pose proof (Pos.size_gt p) as H.
    change 2 with (Zpos 2). rewrite <- Pos2Z.inj_pow. apply Pos2Z.pos_lt_pos. exact H.
Qed.

Lemma bounded_inv m e :
  bounded prec emax m e = true ->
  emin <= e <= emax - prec /\ Zpos (digits2_pos m) <= prec /\
  (emin < e -> Zpos (digits2_pos m) = prec).
Proof.
  unfold bounded, canonical_mantissa, fexp, SpecFloat.emin, prec, emax.
  intros H. apply andb_true_iff in H. destruct H as [H1 H2].
  apply Z.eqb_eq in H1. apply Z.leb_le in H2. lia.
Qed.

Lemma finite_rank_bounds m e :
  bounded prec emax m e = true ->
  0 < Zpos m * 2 ^ (e - emin) < 2 ^ (emax - emin).
Proof.
  intros H. apply bounded_inv in H. destruct H as (He & Hd & _).
  pose proof (digits2_bounds m) as [_ Hm].
  assert (Hp : 0 < 2 ^ (e - emin)) by (apply Z.pow_pos_nonneg; lia).
  split; [lia|].
  assert (Hm' : Zpos m < 2 ^ prec).
  { eapply Z.lt_le_trans; [exact Hm|]. apply Z.pow_le_mono_r; lia. }
  assert (Hle : 2 ^ prec * 2 ^ (e - emin) <= 2 ^ (emax - emin)).
  { rewrite <- Z.pow_add_r by lia. apply Z.pow_le_mono_r; lia. }
  nia.
Qed.

Lemma finite_rank_lt m1 e1 m2 e2 :
  bounded prec emax m1 e1 = true -> bounded prec emax m2 e2 = true ->
  e1 < e2 -> Zpos m1 * 2 ^ (e1 - emin) < Zpos m2 * 2 ^ (e2 - emin).
Proof.
  intros H1 H2 Hlt.
  apply bounded_inv in H1. destruct H1 as (He1 & Hd1 & _).
  apply bounded_inv in H2. destruct H2 as (He2 & _ & Hd2).
  pose proof (digits2_bounds m1) as [_ Hm1].
  pose proof (digits2_bounds m2) as [Hm2 _].
  rewrite Hd2 in Hm2 by lia.
  assert (Hm1' : Zpos m1 < 2 ^ prec).
  { eapply Z.lt_le_trans; [exact Hm1|]. apply Z.pow_le_mono_r; lia. }
  replace (e2 - emin) with ((e2 - e1) + (e1 - emin)) by lia.
  rewrite Z.pow_add_r by lia.
  assert (Hp : 0 < 2 ^ (e1 - emin)) by (apply Z.pow_pos_nonneg; lia).
  assert (Hq : 2 ^ 1 <= 2 ^ (e2 - e1)) by (apply Z.pow_le_mono_r; lia).
  assert (Hpp : 2 ^ prec = 2 ^ (prec - 1) * 2 ^ 1) by reflexivity.
  assert (Hx : Zpos m1 < Zpos m2 * 2 ^ (e2 - e1)) by nia.
  nia.
Qed.

Lemma pos_compare_rank (m1 m2 : positive) (e1 e2 : Z) :
  bounded prec emax m1 e1 = true -> bounded prec emax m2 e2 = true ->
  match e1 ?= e2 with
  | Lt => Lt
  | Gt => Gt
  | Eq => Pos.compare_cont Eq m1 m2
  end = (Zpos m1 * 2 ^ (e1 - emin) ?= Zpos m2 * 2 ^ (e2 - emin)).
Proof.
  intros H1 H2. destruct (Z.compare_spec e1 e2) as [He|He|He].
  - subst e2. change (Pos.compare_cont Eq m1 m2) with (Zpos m1 ?= Zpos m2).
    apply bounded_inv in H1. destruct H1 as (He1 & _).
    assert (Hp : 0 < 2 ^ (e1 - emin)) by (apply Z.pow_pos_nonneg; lia).
    destruct (Z.compare_spec (Zpos m1) (Zpos m2)) as [Hc|Hc|Hc]; symmetry.
    + apply Z.compare_eq_iff. congruence.
    + apply Z.compare_lt_iff. nia.
    + apply Z.compare_gt_iff. nia.
  - symmetry. apply Z.compare_lt_iff. now apply finite_rank_lt.
  - symmetry. apply Z.compare_gt_iff. now apply finite_rank_lt.
Qed.

Ltac cmp_lia :=
  symmetry;
  first [ apply Z.compare_eq_iff; lia
        | apply Z.compare_lt_iff; lia
        | apply Z.compare_gt_iff; lia ].

Lemma SFcompare_rank x y :
  valid_binary x = true -> valid_binary y = true ->
  sf_is_nan x = false -> sf_is_nan y = false ->
  SFcompare x y = Some (rank_sf x ?= rank_sf y).
Proof.
  intros Vx Vy Nx Ny.
  assert (Hinf : 0 < 2 ^ (emax - emin))
    by (apply Z.pow_pos_nonneg; [lia | vm_compute; discriminate]).
  destruct x as [sx|sx| |sx mx ex], y as [sy|sy| |sy my ey];
    try discriminate; cbn [valid_binary] in Vx, Vy;
    cbn [SFcompare rank_sf]; unfold cond_Zopp;
    try pose proof (finite_rank_bounds _ _ Vx);
    try pose proof (finite_rank_bounds _ _ Vy);
    try (f_equal; destruct sx; try destruct sy; cmp_lia).
  all: try (f_equal; destruct sy; cmp_lia).
  f_equal. destruct sx, sy; try cmp_lia.
  - rewrite Z.compare_opp.
    rewrite <- (pos_compare_rank my mx ey ex) by assumption.
    rewrite (Z.compare_antisym ey ex).
    change PosDef.Pos.compare_cont with Pos.compare_cont.
    destruct (ey ?= ex); cbn [CompOpp]; try reflexivity.
    now rewrite Pos.compare_cont_antisym.
  - now apply pos_compare_rank.
Qed.

Lemma shr_1_m mrs : 0 <= shr_m mrs -> shr_m (shr_1 mrs) = shr_m mrs / 2.
Proof.
  destruct mrs as [m r s]. cbn [shr_m]. intros Hm.
  destruct m as [|[p|p|]|p]; cbn [shr_1 shr_m]; try reflexivity; try lia.
  - apply Z.div_unique with 1; lia.
  - apply Z.div_unique with 0; lia.
Qed.

Lemma pow2_xO p : 2 ^ Zpos p~0 = 2 ^ Zpos p * 2 ^ Zpos p.
Proof.
  rewrite (Pos2Z.inj_xO p). replace (2 * Zpos p) with (Zpos p + Zpos p) by lia.
  now rewrite Z.pow_add_r by lia.
Qed.

Lemma pow2_xI p : 2 ^ Zpos p~1 = 2 * (2 ^ Zpos p * 2 ^ Zpos p).
Proof.
  rewrite (Pos2Z.inj_xI p), <- pow2_xO, <- (Pos2Z.inj_xO p).
  replace (Zpos p~0 + 1) with (Z.succ (Zpos p~0)) by lia.
  now rewrite Z.pow_succ_r by lia.
Qed.

Lemma iter_shr_m p : forall mrs,
  0 <= shr_m mrs ->
  shr_m (iter_pos shr_1 p mrs) = shr_m mrs / 2 ^ Zpos p.
Proof.
  assert (Hnn : forall mrs, 0 <= shr_m mrs -> 0 <= shr_m (shr_1 mrs)).
  { intros mrs H. rewrite shr_1_m by assumption. apply Z.div_pos; lia. }
  induction p as [p IH|p IH|]; intros mrs Hm; cbn [iter_pos].
  - assert (H1 := Hnn _ Hm).
    assert (H2 : 0 <= shr_m (iter_pos shr_1 p (shr_1 mrs))).
    { rewrite IH by assumption. apply Z.div_pos; lia. }
    assert (Hp : 0 < 2 ^ Zpos p) by (apply Z.pow_pos_nonneg; lia).
    rewrite IH, IH, shr_1_m by assumption.
    rewrite !Z.div_div by lia. now rewrite pow2_xI.
  - assert (H2 : 0 <= shr_m (iter_pos shr_1 p mrs)).
    { rewrite IH by assumption. apply Z.div_pos; lia. }
    assert (Hp : 0 < 2 ^ Zpos p) by (apply Z.pow_pos_nonneg; lia).
    rewrite IH, IH by assumption.
    rewrite !Z.div_div by lia. now rewrite pow2_xO.
  - rewrite shr_1_m by assumption. reflexivity.
Qed.

Lemma shr_record_of_loc_m m l : shr_m (shr_record_of_loc m l) = m.
Proof. destruct l as [|[| |]]; reflexivity. Qed.

Lemma Zdigits2_bounds m :
  0 < m -> 2 ^ (Zdigits2 m - 1) <= m < 2 ^ Zdigits2 m.
Proof.
  destruct m as [|p|p]; try lia. intros _. apply digits2_bounds.
Qed.

Lemma shr_fexp_pos m e l :
  0 < m -> emin <= e ->
  0 < shr_m (fst (shr_fexp prec emax m e l)) /\
  emin <= snd (shr_fexp prec emax m e l).
Proof.
  intros Hm He. unfold shr_fexp, shr.
  pose proof (Zdigits2_bounds m Hm) as [Hd _].
  assert (Hd0 : 0 < Zdigits2 m) by (destruct m; simpl; lia).
  remember (fexp prec emax (Zdigits2 m + e) - e) as n eqn:Hn.
  assert (Hnb : n <= Zdigits2 m - 1 /\ emin <= e + n).
  { subst n. unfold fexp, SpecFloat.emin, prec, emax in *. lia. }
  destruct n as [|p|p]; cbn [fst snd]; rewrite ?shr_record_of_loc_m; try lia.
  rewrite iter_shr_m by (rewrite shr_record_of_loc_m; lia).
  rewrite shr_record_of_loc_m. split; [|lia].
  apply Z.div_str_pos. split; [apply Z.pow_pos_nonneg; lia|].
  eapply Z.le_trans; [|exact Hd]. apply Z.pow_le_mono_r; lia.
Qed.

Lemma round_nearest_even_ge mx lx : mx <= round_nearest_even mx lx.
Proof.
  unfold round_nearest_even. destruct lx as [|[| |]]; try lia.
  destruct (Z.even mx); lia.
Qed.

Lemma binary_round_aux_sign s m e l :
  0 < m -> emin <= e -> sf_sign_is s (binary_round_aux prec emax s m e l).
Proof.
  intros Hm He. unfold binary_round_aux.
  pose proof (shr_fexp_pos m e l Hm He) as [H1 H2].
  destruct (shr_fexp prec emax m e l) as [mrs' e']. cbn [fst snd] in H1, H2.
  pose proof (round_nearest_even_ge (shr_m mrs') (loc_of_shr_record mrs')) as Hr.
  set (m2 := round_nearest_even _ _) in *.
  assert (Hm2 : 0 < m2) by lia.
  pose proof (shr_fexp_pos m2 e' loc_Exact Hm2 H2) as [H3 _].
  destruct (shr_fexp prec emax m2 e' loc_Exact) as [mrs'' e''].
  cbn [fst] in H3.
  destruct (shr_m mrs'') as [|p|p]; try lia.
  destruct (e'' <=? emax - prec); reflexivity.
Qed.

Lemma binary_round_sign s m e :
  emin <= e -> sf_sign_is s (binary_round prec emax s m e).
Proof.
  intros He. unfold binary_round.
  destruct (shl_align m e _) as [mz ez] eqn:Hal.
  apply binary_round_aux_sign; [lia|].
  unfold shl_align in Hal.
  set (e' := fexp prec emax (Zpos (digits2_pos m) + e)) in *.
  assert (emin <= e') by (unfold e', fexp, SpecFloat.emin, prec, emax in *; lia).
  destruct (e' - e) eqn:Hd; inversion Hal; subst; lia.
Qed.

Lemma binary_normalize_sign m e :
  emin <= e ->
  match binary_normalize prec emax m e false with
  | S754_zero _ => m = 0
  | S754_nan => False
  | S754_infinity s | S754_finite s _ _ => if s then m < 0 else 0 < m
  end.
Proof.
  intros He. destruct m as [|p|p]; cbn [binary_normalize].
  - reflexivity.
  - pose proof (binary_round_sign false p e He) as H.
    destruct (binary_round prec emax false p e); cbn [sf_sign_is] in H;
      try contradiction; subst; lia.
  - pose proof (binary_round_sign true p e He) as H.
    destruct (binary_round prec emax true p e); cbn [sf_sign_is] in H;
      try contradiction; subst; lia.
Qed.

Lemma pos_iter_xO m d : Zpos (Pos.iter xO m d) = Zpos m * 2 ^ Zpos d.
Proof.
  induction d as [|d IH] using Pos.peano_ind.
  - cbn [Pos.iter]. rewrite Z.pow_1_r. lia.
  - rewrite Pos.iter_succ, Pos2Z.inj_succ, Z.pow_succ_r by lia.
    rewrite (Pos2Z.inj_xO (Pos.iter xO m d)), IH. lia.
Qed.

Lemma shl_align_fst m e ez :
  ez <= e -> Zpos (fst (shl_align m e ez)) = Zpos m * 2 ^ (e - ez).
Proof.
  intros Hle. unfold shl_align.
  destruct (ez - e) as [|d|d] eqn:Hd; cbn [fst]; try lia.
  - replace (e - ez) with 0 by lia. lia.
  - rewrite pos_iter_xO. f_equal. f_equal. lia.
Qed.

Lemma SFsub_sign x y :
  valid_binary x = true -> valid_binary y = true ->
  sf_is_nan x = false -> sf_is_nan y = false ->
  SFltb (S754_zero false) (SF64sub y x) = (rank_sf x <? rank_sf y) /\
  SFltb (SF64sub y x) (S754_zero false) = (rank_sf y <? rank_sf x).
Proof.
  intros Vx Vy Nx Ny.
  assert (Hinf : 0 < 2 ^ (emax - emin))
    by (apply Z.pow_pos_nonneg; [lia | vm_compute; discriminate]).
  unfold SF64sub.
  destruct x as [sx|sx| |sx mx ex], y as [sy|sy| |sy my ey];
    try discriminate; cbn [valid_binary] in Vx, Vy;
    try pose proof (finite_rank_bounds _ _ Vx);
    try pose proof (finite_rank_bounds _ _ Vy).
  9: {
    cbn [SFsub rank_sf].
    apply bounded_inv in Vx, Vy.
    destruct Vx as (Hex & _), Vy as (Hey & _).
    set (ez := Z.min ey ex).
    assert (Hez : emin <= ez) by (unfold ez; lia).
    rewrite !shl_align_fst by (unfold ez; lia).
    set (vx := cond_Zopp sx (Zpos mx * 2 ^ (ex - ez))).
    set (vy := cond_Zopp sy (Zpos my * 2 ^ (ey - ez))).
    assert (Hp : 0 < 2 ^ (ez - emin)) by (apply Z.pow_pos_nonneg; lia).
    assert (Hrx : cond_Zopp sx (Zpos mx * 2 ^ (ex - emin)) = vx * 2 ^ (ez - emin)).
    { unfold vx. replace (ex - emin) with ((ex - ez) + (ez - emin)) by lia.
      rewrite Z.pow_add_r by (unfold ez; lia). destruct sx; unfold cond_Zopp; lia. }
    assert (Hry : cond_Zopp sy (Zpos my * 2 ^ (ey - emin)) = vy * 2 ^ (ez - emin)).
    { unfold vy. replace (ey - emin) with ((ey - ez) + (ez - emin)) by lia.
      rewrite Z.pow_add_r by (unfold ez; lia). destruct sy; unfold cond_Zopp; lia. }
    rewrite Hrx, Hry.
    pose proof (binary_normalize_sign (vy - vx) ez Hez) as Hs.
    destruct (binary_normalize prec emax (vy - vx) ez false) as [s|s| |s m e];
      try contradiction; unfold SFltb; cbn [SFcompare];
      try destruct s; split; symmetry;
      first [ apply Z.ltb_lt; nia | apply Z.ltb_ge; nia ]. }
  all: cbn [SFsub rank_sf]; unfold SFltb, cond_Zopp;
    try destruct sx; try destruct sy; cbn [negb SFcompare];
    split; symmetry; first [ apply Z.ltb_lt; lia | apply Z.ltb_ge; lia ].
Qed.

(** The same facts on primitive floats. *)

Lemma is_nan_spec x : sf_is_nan (Prim2SF x) = is_nan x.
Proof.
  unfold is_nan. rewrite eqb_spec. unfold SFeqb.
  destruct (sf_is_nan (Prim2SF x)) eqn:Hn.
  - destruct (Prim2SF x); try discriminate. reflexivity.
  - rewrite SFcompare_rank by (auto using Prim2SF_valid).
    now rewrite Z.compare_refl.
Qed.

Lemma ltb_rank x y :
  is_nan x = false -> is_nan y = false ->
  (x <? y)%float = (rank x <? rank y).
Proof.
  intros Hx Hy. rewrite <- is_nan_spec in Hx, Hy.
  rewrite ltb_spec. unfold SFltb, rank, Z.ltb.
  rewrite SFcompare_rank by (auto using Prim2SF_valid).
  now destruct (_ ?= _).
Qed.

Lemma leb_rank x y :
  is_nan x = false -> is_nan y = false ->
  (x <=? y)%float = (rank x <=? rank y).
Proof.
  intros Hx Hy. rewrite <- is_nan_spec in Hx, Hy.
  rewrite leb_spec. unfold SFleb, rank, Z.leb.
  rewrite SFcompare_rank by (auto using Prim2SF_valid).
  now destruct (_ ?= _).
Qed.

Lemma eqb_true_rank x y :
  (x =? y)%float = true ->
  is_nan x = false /\ is_nan y = false /\ rank x = rank y.
Proof.
  rewrite eqb_spec, <- !is_nan_spec. unfold SFeqb, rank. intros H.
  assert (Hx : sf_is_nan (Prim2SF x) = false).
  { destruct (Prim2SF x); try reflexivity. discriminate. }
  assert (Hy : sf_is_nan (Prim2SF y) = false).
  { destruct (Prim2SF x), (Prim2SF y); try reflexivity; discriminate. }
  rewrite SFcompare_rank in H by (auto using Prim2SF_valid).
  repeat split; try assumption. apply Z.compare_eq_iff.
  now destruct (_ ?= _).
Qed.

(** [y - x < 0] exactly when [y < x]: a difference of two numbers is never
    rounded to zero, and [Infinity - Infinity] is [NaN]. *)
Lemma sub_neg_rank x y :
  is_nan x = false -> is_nan y = false ->
  (y - x <? 0)%float = (rank y <? rank x).
Proof.
  intros Hx Hy. rewrite <- is_nan_spec in Hx, Hy.
  rewrite ltb_spec, sub_spec.
  change (Prim2SF 0) with (S754_zero false).
  now apply SFsub_sign; auto using Prim2SF_valid.
Qed.

(** Multiplication commutes, and multiplying by 1 is exact. *)
Lemma SFmul_comm x y : SF64mul x y = SF64mul y x.
Proof.
  unfold SF64mul.
  destruct x as [sx|sx| |sx mx ex], y as [sy|sy| |sy my ey]; cbn [SFmul];
    rewrite ?(xorb_comm sx sy); try reflexivity.
  now rewrite (Pos.mul_comm mx my), (Z.add_comm ex ey).
Qed.

Lemma mul_comm x y : (x * y)%float = (y * x)%float.
Proof. apply Prim2SF_inj. rewrite !mul_spec. apply SFmul_comm. Qed.

Lemma one_spec : Prim2SF 1 = S754_finite false 4503599627370496 (-52).
Proof. reflexivity. Qed.

Lemma shr_52 mx :
  iter_pos shr_1 52 (shr_record_of_loc (Zpos (4503599627370496 * mx)) loc_Exact)
  = {| shr_m := Zpos mx; shr_r := false; shr_s := false |}.
Proof. reflexivity. Qed.

Lemma digits_shl_52 mx :
  Zpos (digits2_pos (4503599627370496 * mx)) = Zpos (digits2_pos mx) + 52.
Proof. cbn [Pos.mul digits2_pos]. rewrite !Pos2Z.inj_succ. lia. Qed.

Lemma SFmul_1_r x : valid_binary x = true -> SF64mul x (Prim2SF 1) = x.
Proof.
  intros V. rewrite one_spec. unfold SF64mul.
  destruct x as [sx|sx| |sx mx ex]; cbn [SFmul];
    rewrite ?xorb_false_r; try reflexivity.
  cbn [valid_binary] in V.
  unfold bounded in V. apply andb_true_iff in V. destruct V as [Hc Hb].
  unfold canonical_mantissa in Hc. apply Z.eqb_eq in Hc.
  rewrite (Pos.mul_comm mx).
  unfold binary_round_aux, shr_fexp at 1. cbn [Zdigits2].
  rewrite digits_shl_52.
  replace (Zpos (digits2_pos mx) + 52 + (ex + -52))
    with (Zpos (digits2_pos mx) + ex) by lia.
  rewrite Hc. replace (ex - (ex + -52)) with 52 by lia.
  cbn [shr]. rewrite shr_52. cbn [shr_m loc_of_shr_record round_nearest_even].
  unfold shr_fexp. cbn [Zdigits2].
  replace (ex + -52 + 52) with ex by lia.
  rewrite Hc, Z.sub_diag. cbn [shr shr_record_of_loc shr_m].
  now rewrite Hb.
Qed.

Lemma mul_1_r x : (x * 1)%float = x.
Proof.
  apply Prim2SF_inj. rewrite mul_spec. apply SFmul_1_r, Prim2SF_valid.
Qed.

(** * Facts about arrays *)

Section SliceFacts.
Context {A : Type}.
Implicit Types l : list A.

(** With indices that are not negative, [slice] drops [a] elements and
    keeps the next [b - a]. *)
Lemma slice_nonneg a b l :
  0 <= a -> 0 <= b ->
  slice a b l = firstn (Z.to_nat (b - a)) (skipn (Z.to_nat a) l).
Proof.
  intros Ha Hb. unfold slice, relIndex.
  destruct (Z.ltb_spec a 0) as [?|_]; [lia|].
  destruct (Z.ltb_spec b 0) as [?|_]; [lia|].
  set (len := List.length l).
  destruct (Z.le_gt_cases a (Z.of_nat len)) as [Hal|Hal].
  - rewrite (Z.min_l a) by assumption.
    destruct (Z.le_gt_cases b (Z.of_nat len)) as [Hbl|Hbl].
    + now rewrite (Z.min_l b) by assumption.
    + rewrite (Z.min_r b) by lia.
      rewrite !firstn_all2; try reflexivity; rewrite length_skipn; fold len; lia.
  - rewrite (Z.min_r a) by lia.
    rewrite !skipn_all2 by (fold len; lia).
    now rewrite !firstn_nil.
Qed.

End SliceFacts.

Lemma StronglySorted_nth {A : Type} (R : A -> A -> Prop) (l : list A) :
  StronglySorted R l ->
  forall i j a b, (i < j)%nat ->
    nth_error l i = Some a -> nth_error l j = Some b -> R a b.
Proof.
  induction 1 as [|x l Hss IH Hall]; intros i j a b Hij Hi Hj.
  - destruct i; discriminate.
  - destruct j as [|j]; [lia|]. cbn [nth_error] in Hj.
    destruct i as [|i]; cbn [nth_error] in Hi.
    + injection Hi as <-. rewrite Forall_forall in Hall.
      apply Hall. eapply nth_error_In; eassumption.
    + eapply IH; [|eassumption|eassumption]. lia.
Qed.

Lemma StronglySorted_firstn {A : Type} (R : A -> A -> Prop) n (l : list A) :
  StronglySorted R l -> StronglySorted R (firstn n l).
Proof.
  intros H. revert n. induction H as [|x l Hss IH Hall]; intros [|n];
    cbn [firstn]; try constructor.
  - apply IH.
  - rewrite Forall_forall in *. intros y Hy. apply Hall.
    rewrite <- (firstn_skipn n l). apply in_or_app. now left.
Qed.

Lemma StronglySorted_weaken {A : Type} (R S : A -> A -> Prop) (P : A -> Prop) l :
  (forall a b, P a -> P b -> R a b -> S a b) ->
  Forall P l -> StronglySorted R l -> StronglySorted S l.
Proof.
  intros HRS HP H. induction H as [|x l Hss IH Hall]; constructor.
  - apply IH. now inversion HP.
  - inversion HP as [|? ? Hx Hl]; subst.
    rewrite Forall_forall in *. intros y Hy. apply HRS; auto.
Qed.

Lemma StronglySorted_and {A : Type} (R S : A -> A -> Prop) (l : list A) :
  StronglySorted R l -> StronglySorted S l ->
  StronglySorted (fun a b => R a b /\ S a b) l.
Proof.
  induction 1 as [|x l HR IH HallR]; intros HS; [constructor|].
  apply StronglySorted_inv in HS. destruct HS as [HS HallS].
  constructor; [now apply IH|].
  rewrite Forall_forall in *. intros y Hy. split; auto.
Qed.

Lemma StronglySorted_app_cross {A : Type} (R : A -> A -> Prop) (l1 l2 : list A) :
  StronglySorted R (l1 ++ l2) ->
  forall a b, In a l1 -> In b l2 -> R a b.
Proof.
  induction l1 as [|x l1 IH]; cbn [app]; intros H a b Ha Hb; [contradiction|].
  apply StronglySorted_inv in H. destruct H as [Hs Hall].
  destruct Ha as [<-|Ha].
  - rewrite Forall_forall in Hall. apply Hall, in_or_app. now right.
  - now apply IH.
Qed.

Lemma StronglySorted_app {A : Type} (R : A -> A -> Prop) (l1 l2 : list A) :
  StronglySorted R l1 -> StronglySorted R l2 ->
  (forall a b, In a l1 -> In b l2 -> R a b) ->
  StronglySorted R (l1 ++ l2).
Proof.
  induction 1 as [|x l1 Hs IH Hall]; intros H2 Hc; cbn [app]; [assumption|].
  constructor.
  - apply IH; [assumption|]. intros a b Ha Hb. apply Hc; [now right|assumption].
  - apply Forall_app. split; [assumption|].
    apply Forall_forall. intros b Hb. apply Hc; [now left|assumption].
Qed.

Lemma StronglySorted_app_inv {A : Type} (R : A -> A -> Prop) (l1 l2 : list A) :
  StronglySorted R (l1 ++ l2) -> StronglySorted R l1 /\ StronglySorted R l2.
Proof.
  induction l1 as [|x l1 IH]; cbn [app]; intros H; [split; [constructor|assumption]|].
  apply StronglySorted_inv in H. destruct H as [Hs Hall].
  destruct (IH Hs) as [H1 H2]. split; [|assumption].
  constructor; [assumption|]. now apply Forall_app in Hall.
Qed.

Lemma StronglySorted_rev {A : Type} (R : A -> A -> Prop) (l : list A) :
  StronglySorted R l -> StronglySorted (fun a b => R b a) (rev l).
Proof.
  induction 1 as [|x l Hs IH Hall]; cbn [rev]; [constructor|].
  apply StronglySorted_app; [assumption|repeat constructor|].
  intros a b Ha [<-|[]]. rewrite Forall_forall in Hall.
  apply Hall. now apply in_rev.
Qed.

Section SortFacts.
Context {A : Type}.
Variable comparefn : A -> A -> float.
Implicit Types l : list A.

Lemma extendRun_app d prev l :
  l = fst (extendRun comparefn d prev l) ++ snd (extendRun comparefn d prev l).
Proof.
  revert prev. induction l as [|c l IH]; intros prev; cbn [extendRun];
    [reflexivity|].
  destruct (if d then _ else _); [reflexivity|].
  specialize (IH c). destruct (extendRun comparefn d c l) as [run rest].
  cbn [fst snd app] in *. now rewrite <- IH.
Qed.

Lemma countAndMakeRun_perm l :
  Permutation (fst (countAndMakeRun comparefn l) ++
               snd (countAndMakeRun comparefn l)) l.
Proof.
  destruct l as [|h [|lo l]]; cbn [countAndMakeRun fst snd];
    try (rewrite app_nil_r; reflexivity).
  pose proof (extendRun_app (sortsBefore comparefn lo h) lo l) as E.
  destruct (extendRun comparefn _ lo l) as [run rest]. cbn [fst snd] in *.
  subst l.
  change (h :: lo :: run ++ rest) with ((h :: lo :: run) ++ rest).
  apply Permutation_app_tail.
  destruct (sortsBefore comparefn lo h); [|reflexivity].
  symmetry. apply Permutation_rev.
Qed.

Lemma binaryInsert_perm l p : Permutation (binaryInsert comparefn l p) (p :: l).
Proof.
  unfold binaryInsert. set (k := binarySearch _ _ _ _ _ _).
  rewrite <- (firstn_skipn k l) at 3. symmetry. apply Permutation_middle.
Qed.

Lemma fold_binaryInsert_perm rest : forall run,
  Permutation (fold_left (binaryInsert comparefn) rest run) (run ++ rest).
Proof.
  induction rest as [|p rest IH]; intros run; cbn [fold_left].
  - now rewrite app_nil_r.
  - rewrite IH, binaryInsert_perm. apply Permutation_middle.
Qed.

Lemma sort_perm l : Permutation (sort comparefn l) l.
Proof.
  unfold sort. pose proof (countAndMakeRun_perm l) as H.
  destruct (countAndMakeRun comparefn l) as [run rest]. cbn [fst snd] in H.
  now rewrite fold_binaryInsert_perm.
Qed.

Lemma sort_length l : List.length (sort comparefn l) = List.length l.
Proof. apply Permutation_length, sort_perm. Qed.

Lemma sort_In x l : In x (sort comparefn l) <-> In x l.
Proof.
  split; apply Permutation_in; [|symmetry]; apply sort_perm.
Qed.

Lemma sort_Forall (P : A -> Prop) l :
  Forall P l -> Forall P (sort comparefn l).
Proof.
  rewrite !Forall_forall. intros H x Hx. now apply H, sort_In.
Qed.

Section Keyed.
Variable key : A -> Z.
Variable P : A -> Prop.
Hypothesis sortsBefore_key :
  forall x y, P x -> P y -> sortsBefore comparefn x y = (key x <? key y).

(** The binary search ends where the pivot belongs: behind every element
    that does not sort after it. *)
Lemma binarySearch_spec (s : list A) (p : A) :
  Forall P s -> P p -> StronglySorted (fun a b => key a <= key b) s ->
  forall fuel left right,
    (left <= right <= List.length s)%nat -> (right - left <= fuel)%nat ->
    (forall i e, (i < left)%nat -> nth_error s i = Some e -> key e <= key p) ->
    (forall i e, (right <= i)%nat -> nth_error s i = Some e -> key p < key e) ->
    let k := binarySearch fuel comparefn p s left right in
    (k <= List.length s)%nat /\
    (forall i e, (i < k)%nat -> nth_error s i = Some e -> key e <= key p) /\
    (forall i e, (k <= i)%nat -> nth_error s i = Some e -> key p < key e).
Proof.
  intros HP Hp Hs. induction fuel as [|fuel IH]; intros left right Hlr Hf Hl Hr;
    cbn [binarySearch].
  - assert (left = right) by lia. subst. repeat split; auto; lia.
  - destruct (Nat.ltb_spec left right) as [Hlt|Hge].
    2:{ assert (left = right) by lia. subst. repeat split; auto; lia. }
    set (mid := (left + (right - left) / 2)%nat).
    assert (Hmid : (left <= mid < right)%nat).
    { unfold mid. pose proof (Nat.div_mod_eq (right - left) 2).
      pose proof (Nat.mod_upper_bound (right - left) 2). lia. }
    destruct (nth_error s mid) as [e|] eqn:He.
    2:{ apply nth_error_None in He. lia. }
    assert (Pe : P e) by (rewrite Forall_forall in HP; eapply HP, nth_error_In, He).
    rewrite sortsBefore_key by assumption.
    destruct (Z.ltb_spec (key p) (key e)) as [Hpe|Hpe].
    + apply IH; try lia; try assumption.
      intros i e' Hi He'. destruct (Nat.eq_dec i mid) as [->|Hne].
      * congruence.
      * assert (key e <= key e')
          by (eapply (StronglySorted_nth _ _ Hs mid i); [lia|eassumption..]).
        lia.
    + apply IH; try lia; try assumption.
      intros i e' Hi He'. destruct (Nat.eq_dec i mid) as [->|Hne].
      * replace e' with e by congruence. lia.
      * assert (key e' <= key e)
          by (eapply (StronglySorted_nth _ _ Hs i mid); [lia|eassumption..]).
        lia.
Qed.

Section Order.
Variable Q : A -> A -> Prop.

(** The order that a stable sort by [key] produces from a list in which
    [Q] relates every element to the later ones. *)
Definition keyed (a b : A) : Prop :=
  key a <= key b /\ (key a = key b -> Q a b).

Lemma binaryInsert_keyed (s : list A) (p : A) :
  Forall P s -> P p -> Forall (fun a => Q a p) s ->
  StronglySorted keyed s -> StronglySorted keyed (binaryInsert comparefn s p).
Proof.
  intros HP Hp HQ Hs.
  assert (Hk : StronglySorted (fun a b => key a <= key b) s).
  { eapply StronglySorted_weaken with (P := fun _ => True);
      [|apply Forall_forall; intros; exact I|exact Hs].
    intros a b _ _ [H _]. exact H. }
  destruct (binarySearch_spec s p HP Hp Hk (List.length s) 0 (List.length s))
    as (Hlen & Hbefore & Hafter); try lia.
  { intros i e Hi He. assert (i < List.length s)%nat; [|lia].
    apply nth_error_Some. congruence. }
  unfold binaryInsert.
  set (k := binarySearch (List.length s) comparefn p s 0 (List.length s)) in *.
  pose proof (firstn_skipn k s) as Hsplit.
  rewrite <- Hsplit in Hs.
  destruct (StronglySorted_app_inv _ _ _ Hs) as [H1 H2].
  assert (Hf : forall a, In a (firstn k s) -> key a <= key p /\ Q a p).
  { intros a Ha. split.
    - apply In_nth_error in Ha. destruct Ha as [i Hi].
      assert (i < k)%nat.
      { assert (i < List.length (firstn k s))%nat
          by (apply nth_error_Some; congruence).
        rewrite length_firstn in *. lia. }
      rewrite nth_error_firstn in Hi.
      destruct (Nat.ltb_spec i k); [|lia]. eauto.
    - rewrite Forall_forall in HQ. apply HQ.
      rewrite <- Hsplit. apply in_or_app. now left. }
  assert (Hsk : forall b, In b (skipn k s) -> key p < key b).
  { intros b Hb. apply In_nth_error in Hb. destruct Hb as [i Hi].
    rewrite nth_error_skipn in Hi. apply (Hafter (k + i)%nat); [lia|exact Hi]. }
  apply StronglySorted_app; [exact H1| |].
  - constructor; [exact H2|]. apply Forall_forall. intros b Hb.
    specialize (Hsk b Hb). split; lia.
  - intros a b Ha [<-|Hb].
    + destruct (Hf a Ha). split; auto.
    + eapply StronglySorted_app_cross; eassumption.
Qed.

Lemma fold_binaryInsert_keyed (rest : list A) : forall run,
  Forall P run -> Forall P rest ->
  StronglySorted keyed run -> StronglySorted Q rest ->
  (forall a b, In a run -> In b rest -> Q a b) ->
  StronglySorted keyed (fold_left (binaryInsert comparefn) rest run).
Proof.
  induction rest as [|p rest IH]; intros run HPr HPt Hrun Hrest Hc;
    cbn [fold_left]; [assumption|].
  apply StronglySorted_inv in Hrest. destruct Hrest as [Hrest Hp].
  apply Forall_cons_iff in HPt. destruct HPt as [HPp HPt].
  rewrite Forall_forall in Hp.
  apply IH; try assumption.
  - eapply Permutation_Forall; [symmetry; apply binaryInsert_perm|].
    now constructor.
  - apply binaryInsert_keyed; try assumption.
    apply Forall_forall. intros a Ha. apply Hc; [assumption|now left].
  - intros a b Ha Hb.
    apply (Permutation_in _ (binaryInsert_perm run p)) in Ha.
    destruct Ha as [<-|Ha]; [now apply Hp|].
    apply Hc; [assumption|now right].
Qed.

(** A run as [countAndMakeRun] grows it: each element against the one
    before it. *)
Definition runStep (isDescending : bool) (a b : A) : Prop :=
  if isDescending then key b < key a else key a <= key b.

Lemma extendRun_Sorted d l : forall prev,
  P prev -> Forall P l ->
  Sorted (runStep d) (prev :: fst (extendRun comparefn d prev l)).
Proof.
  induction l as [|c l IH]; intros prev Hprev Hl; cbn [extendRun fst];
    [repeat constructor|].
  apply Forall_cons_iff in Hl. destruct Hl as [Hc Hl].
  rewrite sortsBefore_key by assumption.
  destruct (if d then negb (key c <? key prev) else key c <? key prev) eqn:E;
    cbn [fst]; [repeat constructor|].
  specialize (IH c Hc Hl).
  destruct (extendRun comparefn d c l) as [run rest]. cbn [fst] in *.
  constructor; [exact IH|]. constructor. unfold runStep.
  destruct d.
  - apply negb_false_iff, Z.ltb_lt in E. exact E.
  - apply Z.ltb_ge in E. exact E.
Qed.

Lemma runStep_trans d a b c : runStep d a b -> runStep d b c -> runStep d a c.
Proof. unfold runStep. destruct d; lia. Qed.

Lemma countAndMakeRun_keyed l :
  Forall P l -> StronglySorted Q l ->
  StronglySorted keyed (fst (countAndMakeRun comparefn l)).
Proof.
  intros HP HQ.
  destruct l as [|h [|lo l]]; cbn [countAndMakeRun fst].
  - constructor.
  - repeat constructor.
  - apply Forall_cons_iff in HP. destruct HP as [Hh HP].
    pose proof HP as HP'.
    apply Forall_cons_iff in HP. destruct HP as [Hlo HP].
    pose proof (extendRun_Sorted (sortsBefore comparefn lo h) l lo Hlo HP) as Hrun.
    pose proof (extendRun_app (sortsBefore comparefn lo h) lo l) as Happ.
    destruct (extendRun comparefn _ lo l) as [run rest]. cbn [fst snd] in *.
    assert (Hstep : runStep (sortsBefore comparefn lo h) h lo).
    { unfold runStep. rewrite sortsBefore_key by assumption.
      destruct (Z.ltb_spec (key lo) (key h)); lia. }
    assert (Hwhole : StronglySorted (runStep (sortsBefore comparefn lo h))
                       (h :: lo :: run)).
    { apply Sorted_StronglySorted.
      - intros a b c. apply runStep_trans.
      - constructor; [exact Hrun|]. now constructor. }
    assert (HQw : StronglySorted Q (h :: lo :: run)).
    { subst l.
      change (h :: lo :: run ++ rest) with ((h :: lo :: run) ++ rest) in HQ.
      now apply StronglySorted_app_inv in HQ. }
    destruct (sortsBefore comparefn lo h); unfold runStep in Hwhole.
    + apply StronglySorted_rev in Hwhole.
      eapply StronglySorted_weaken with (P := fun _ => True);
        [|apply Forall_forall; intros; exact I|exact Hwhole].
      intros a b _ _ H. cbn beta in H. split; lia.
    + pose proof (StronglySorted_and _ _ _ Hwhole HQw) as H.
      eapply StronglySorted_weaken with (P := fun _ => True);
        [|apply Forall_forall; intros; exact I|exact H].
      intros a b _ _ [H1 H2]. split; auto.
Qed.

Lemma sort_keyed l :
  Forall P l -> StronglySorted Q l -> StronglySorted keyed (sort comparefn l).
Proof.
  intros HP HQ. unfold sort.
  pose proof (countAndMakeRun_keyed l HP HQ) as Hrun.
  pose proof (countAndMakeRun_perm l) as Hperm.
  destruct l as [|h [|lo l]]; cbn [countAndMakeRun fst snd fold_left] in *;
    try assumption.
  pose proof (extendRun_app (sortsBefore comparefn lo h) lo l) as Happ.
  destruct (extendRun comparefn _ lo l) as [run rest]. cbn [fst snd] in *.
  assert (HPall : Forall P ((h :: lo :: run) ++ rest))
    by (cbn [app]; now rewrite <- Happ).
  apply Forall_app in HPall. destruct HPall as [HPrun HPrest].
  assert (HQall : StronglySorted Q ((h :: lo :: run) ++ rest))
    by (cbn [app]; now rewrite <- Happ).
  apply fold_binaryInsert_keyed; try assumption.
  - destruct (sortsBefore comparefn lo h); [|assumption].
    eapply Permutation_Forall; [apply Permutation_rev|exact HPrun].
  - now apply StronglySorted_app_inv in HQall.
  - intros a b Ha Hb.
    eapply StronglySorted_app_cross; [exact HQall| |exact Hb].
    destruct (sortsBefore comparefn lo h); [|assumption].
    now apply in_rev.
Qed.

End Order.

(** [sort] leaves the keys ascending. *)
Lemma sort_sorted l :
  Forall P l -> StronglySorted (fun a b => key a <= key b) (sort comparefn l).
Proof.
  intros HP.
  assert (HQ : StronglySorted (fun _ _ => True) l).
  { clear. induction l; constructor; [assumption|].
    apply Forall_forall. intros; exact I. }
  pose proof (sort_keyed _ l HP HQ) as H.
  eapply StronglySorted_weaken with (P := fun _ => True);
    [|apply Forall_forall; intros; exact I|exact H].
  intros a b _ _ [H1 _]. exact H1.
Qed.

(** [sort] is stable: elements of equal key keep the order of the
    input. *)
Lemma sort_stable (ord : A -> Z) l :
  Forall P l -> StronglySorted (fun a b => ord a < ord b) l ->
  StronglySorted (fun a b => key a = key b -> ord a < ord b) (sort comparefn l).
Proof.
  intros HP HQ.
  pose proof (sort_keyed _ l HP HQ) as H.
  eapply StronglySorted_weaken with (P := fun _ => True);
    [|apply Forall_forall; intros; exact I|exact H].
  intros a b _ _ [_ H2]. exact H2.
Qed.

End Keyed.
End SortFacts.



(** Two lists with the same elements, both strictly sorted, are equal. *)
Lemma StronglySorted_unique {A : Type} (R : A -> A -> Prop) :
  (forall a b, R a b -> R b a -> False) ->
  forall l1 l2 : list A,
    Permutation l1 l2 -> StronglySorted R l1 -> StronglySorted R l2 -> l1 = l2.
Proof.
  intros Hasym. induction l1 as [|a l1 IH]; intros l2 Hp H1 H2.
  - apply Permutation_nil in Hp. now subst.
  - destruct l2 as [|b l2].
    + symmetry in Hp. apply Permutation_nil in Hp. discriminate.
    + apply StronglySorted_inv in H1, H2.
      destruct H1 as [H1 Ha], H2 as [H2 Hb].
      rewrite Forall_forall in Ha, Hb.
      assert (Hab : a = b).
      { assert (Hin1 : In a (b :: l2))
          by (eapply Permutation_in; [exact Hp|now left]).
        assert (Hin2 : In b (a :: l1))
          by (eapply Permutation_in; [symmetry; exact Hp|now left]).
        destruct Hin1 as [->|Hin1]; [reflexivity|].
        destruct Hin2 as [->|Hin2]; [reflexivity|].
        exfalso. eapply Hasym; [apply Ha|apply Hb]; eassumption. }
      subst b. f_equal. apply IH; try assumption.
      now apply Permutation_cons_inv in Hp.
Qed.

Section SortUnique.
Context {A : Type}.
Variable comparefn : A -> A -> float.
Variable key ord : A -> Z.
Variable P : A -> Prop.
Hypothesis sortsBefore_key :
  forall x y, P x -> P y -> sortsBefore comparefn x y = (key x <? key y).

(** Every stable sort agrees with [sort] when the comparator is
    consistent: a permutation of [l] that is sorted by the key and keeps
    the elements of equal key in the order of [l] is [sort comparefn l]. *)
Lemma sort_unique (l out : list A) :
  Forall P l ->
  StronglySorted (fun a b => ord a < ord b) l ->
  Permutation out l ->
  StronglySorted (fun a b => key a <= key b) out ->
  StronglySorted (fun a b => key a = key b -> ord a < ord b) out ->
  out = sort comparefn l.
Proof.
  intros HP Hord Hperm Hsorted Hstable.
  apply (StronglySorted_unique
           (fun a b => key a < key b \/ (key a = key b /\ ord a < ord b))).
  - intros a b H1 H2. lia.
  - rewrite Hperm. symmetry. apply sort_perm.
  - pose proof (StronglySorted_and _ _ _ Hsorted Hstable) as H.
    eapply StronglySorted_weaken with (P := fun _ => True);
      [|apply Forall_forall; intros; exact I|exact H].
    intros a b _ _ [H1 H2]. cbn beta in *. lia.
  - pose proof (sort_sorted comparefn key P sortsBefore_key l HP) as H1.
    pose proof (sort_stable comparefn key P sortsBefore_key ord l HP Hord) as H2.
    pose proof (StronglySorted_and _ _ _ H1 H2) as H.
    eapply StronglySorted_weaken with (P := fun _ => True);
      [|apply Forall_forall; intros; exact I|exact H].
    intros a b _ _ [H3 H4]. cbn beta in *. lia.
Qed.

End SortUnique.

Section FilterFacts.
Context {A : Type}.
Variable p : A -> option bool.

(** When no call throws, [filterE] is [filter]. *)
Lemma filterE_filter (q : A -> bool) (l : list A) :
  Forall (fun x => p x = Some (q x)) l -> filterE p l = Some (filter q l).
Proof.
  induction 1 as [|x l Hx Hl IH]; cbn [filterE filter]; [reflexivity|].
  rewrite Hx, IH. now destruct (q x).
Qed.

Lemma filterE_Some (l r : list A) :
  filterE p l = Some r ->
  Forall (fun x => p x <> None) l /\
  r = filter (fun x => match p x with Some true => true | _ => false end) l.
Proof.
  revert r. induction l as [|x l IH]; cbn [filterE filter]; intros r H.
  - injection H as <-. split; constructor.
  - destruct (p x) as [b|] eqn:Hp; [|discriminate].
    destruct (filterE p l) as [r'|]; [|discriminate].
    destruct (IH r' eq_refl) as [HF ->]. injection H as <-.
    split; [constructor; [congruence|assumption]|].
    now destruct b.
Qed.

End FilterFacts.

(** * Facts about strings *)

Local Open Scope string_scope.

Lemma prefix_spec (f s : string) :
  prefix f s = true <-> exists post, s = f ++ post.
Proof.
  revert s. induction f as [|c f IH]; intros s.
  - split; [intros _; now exists s|intros _; now destruct s].
  - destruct s as [|d s]; cbn [prefix].
    + split; [discriminate|intros [? ?]; discriminate].
    + destruct (ascii_dec c d) as [->|Hne].
      * rewrite IH. split; intros [post H]; exists post; cbn in *; congruence.
      * split; [discriminate|]. intros [post H]. cbn in H. congruence.
Qed.

Lemma includes_spec (s f : string) :
  includes s f = true <-> isSubstring f s.
Proof.
  unfold isSubstring. induction s as [|c s IH]; cbn [includes].
  - destruct (prefix f "") eqn:Hp.
    + split; [intros _|reflexivity]. apply prefix_spec in Hp.
      destruct Hp as [post ->]. now exists "", post.
    + split; [discriminate|]. intros (pre & post & H).
      destruct pre; [|discriminate]. cbn in H.
      assert (prefix f "" = true) by (apply prefix_spec; eauto). congruence.
  - destruct (prefix f (String c s)) eqn:Hp.
    + split; [intros _|reflexivity]. apply prefix_spec in Hp.
      destruct Hp as [post ->]. now exists "", post.
    + rewrite IH. split; intros (pre & post & H).
      * exists (String c pre), post. cbn. now rewrite H.
      * destruct pre as [|d pre].
        -- cbn in H. assert (prefix f (String c s) = true)
             by (apply prefix_spec; eauto). congruence.
        -- cbn in H. injection H as _ H. eauto.
Qed.

Lemma asciiToLowerCase_app (a b : string) :
  asciiToLowerCase (a ++ b) = asciiToLowerCase a ++ asciiToLowerCase b.
Proof. induction a as [|x a IH]; cbn; [reflexivity|now rewrite IH]. Qed.

(** A decomposition of the lower-cased string comes from one of the
    string. *)
Lemma asciiToLowerCase_app_inv (s a b : string) :
  asciiToLowerCase s = a ++ b ->
  exists s1 s2,
    s = s1 ++ s2 /\ asciiToLowerCase s1 = a /\ asciiToLowerCase s2 = b.
Proof.
  revert s. induction a as [|x a IH]; intros s H.
  - exists "", s. auto.
  - destruct s as [|c s]; [discriminate|]. cbn in H. injection H as Hc H.
    destruct (IH s H) as (s1 & s2 & -> & <- & <-).
    exists (String c s1), s2. cbn. now rewrite Hc.
Qed.

Lemma toLowerChar_code c :
  nat_of_ascii (toLowerChar c) =
  if isUpper c then (nat_of_ascii c + 32)%nat else nat_of_ascii c.
Proof.
  unfold toLowerChar. destruct (isUpper c) eqn:Hu; [|reflexivity].
  apply nat_ascii_embedding. unfold isUpper in Hu.
  apply andb_true_iff in Hu. destruct Hu as [_ Hu].
  apply Nat.leb_le in Hu. lia.
Qed.

Lemma nat_of_ascii_inj c d : nat_of_ascii c = nat_of_ascii d -> c = d.
Proof.
  intros H. rewrite <- (ascii_nat_embedding c), <- (ascii_nat_embedding d).
  now rewrite H.
Qed.

Lemma isUpper_spec c :
  isUpper c = true <-> (65 <= nat_of_ascii c <= 90)%nat.
Proof.
  unfold isUpper. rewrite andb_true_iff, !Nat.leb_le. tauto.
Qed.

Lemma sameLetter_spec c d : sameLetter c d <-> toLowerChar c = toLowerChar d.
Proof.
  unfold sameLetter. split.
  - intros [->|[[Hu Hd]|[Hu Hc]]]; [reflexivity| |];
      apply nat_of_ascii_inj; rewrite !toLowerChar_code, Hu;
      apply isUpper_spec in Hu.
    + destruct (isUpper d) eqn:E; [apply isUpper_spec in E; lia|lia].
    + destruct (isUpper c) eqn:E; [apply isUpper_spec in E; lia|lia].
  - intros H. apply (f_equal nat_of_ascii) in H.
    rewrite !toLowerChar_code in H.
    destruct (isUpper c) eqn:Hc, (isUpper d) eqn:Hd.
    + left. apply nat_of_ascii_inj. lia.
    + right. left. split; [reflexivity|lia].
    + right. right. split; [reflexivity|lia].
    + left. now apply nat_of_ascii_inj.
Qed.

Lemma equalIgnoringCase_spec s t :
  equalIgnoringCase s t <-> asciiToLowerCase s = asciiToLowerCase t.
Proof.
  split.
  - induction 1 as [|c d s t Hcd Hst IH]; cbn; [reflexivity|].
    apply sameLetter_spec in Hcd. congruence.
  - revert t. induction s as [|c s IH]; intros [|d t] H; try discriminate.
    + constructor.
    + cbn in H. injection H as Hc H. constructor; [|now apply IH].
      now apply sameLetter_spec.
Qed.

(** What the two [includes] tests of the filter decide, whatever the
    mapping to lower case. *)
Lemma includes_toLowerCase (toLowerCase : string -> string)
  (s f : string) :
  includes (toLowerCase s) (toLowerCase f) = true <->
  isSubstringIgnoringCase toLowerCase f s.
Proof. apply includes_spec. Qed.

(** With the ASCII mapping, this is an occurrence letter by letter. *)
Lemma asciiToLowerCase_letters (f s : string) :
  isSubstringIgnoringCase asciiToLowerCase f s <-> occursIgnoringCase f s.
Proof.
  unfold isSubstring, isSubstringIgnoringCase, occursIgnoringCase. split.
  - intros (pre & post & H).
    apply asciiToLowerCase_app_inv in H.
    destruct H as (s1 & s2 & -> & <- & H).
    apply asciiToLowerCase_app_inv in H.
    destruct H as (s3 & s4 & -> & H & <-).
    exists s1, s3, s4. split; [reflexivity|]. now apply equalIgnoringCase_spec.
  - intros (pre & mid & post & -> & H). apply equalIgnoringCase_spec in H.
    exists (asciiToLowerCase pre), (asciiToLowerCase post).
    now rewrite !asciiToLowerCase_app, H.
Qed.

(** With the ASCII mapping, a plain occurrence is one up to case. *)
Lemma isSubstring_ignoringCase f s :
  isSubstring f s -> isSubstringIgnoringCase asciiToLowerCase f s.
Proof.
  intros (pre & post & ->). apply asciiToLowerCase_letters.
  exists pre, f, post. split; [reflexivity|].
  now apply equalIgnoringCase_spec.
Qed.

(** The empty filter occurs in every string, when lower-casing leaves the
    empty string empty. *)
Lemma empty_isSubstringIgnoringCase (toLowerCase : string -> string) s :
  toLowerCase "" = "" -> isSubstringIgnoringCase toLowerCase "" s.
Proof.
  intros H. unfold isSubstringIgnoringCase. rewrite H.
  now exists "", (toLowerCase s).
Qed.

Local Close Scope string_scope.

(** * Facts about the pipeline *)

Lemma StronglySorted_filter {A : Type} (R : A -> A -> Prop) (q : A -> bool) l :
  StronglySorted R l -> StronglySorted R (filter q l).
Proof.
  induction 1 as [|x l Hss IH Hall]; cbn [filter]; [constructor|].
  destruct (q x); [|assumption]. constructor; [assumption|].
  rewrite Forall_forall in *. intros y Hy. apply filter_In in Hy. now apply Hall.
Qed.

(** The records are numbered in ingestion order. *)
Lemma mapIndexed_ids log10 rows : forall index,
  Forall (fun r => index < id r) (mapIndexed log10 index rows) /\
  StronglySorted (fun a b => id a < id b) (mapIndexed log10 index rows).
Proof.
  induction rows as [|r rows IH]; intros index; cbn [mapIndexed].
  - split; constructor.
  - destruct (IH (index + 1)) as [HF HS]. split.
    + constructor; [cbn; lia|].
      eapply Forall_impl; [|exact HF]. cbn. intros; lia.
    + constructor; [assumption|].
      eapply Forall_impl; [|exact HF]. cbn. intros; lia.
Qed.

Lemma rankedData_tableCompare data m :
  rankedData data m = sort (tableCompare desc m) data.
Proof. reflexivity. Qed.

(** The comparators follow the rank of the metric on numbers. *)
Lemma tableCompare_key m o x y :
  is_nan (getMetric m x) = false -> is_nan (getMetric m y) = false ->
  sortsBefore (tableCompare o m) x y =
  match o with
  | asc => rank (getMetric m x) <? rank (getMetric m y)
  | desc => - rank (getMetric m x) <? - rank (getMetric m y)
  end.
Proof.
  intros Hx Hy. unfold sortsBefore, tableCompare. destruct o.
  - now rewrite sub_neg_rank.
  - rewrite sub_neg_rank by assumption.
    destruct (Z.ltb_spec (rank (getMetric m y)) (rank (getMetric m x)));
      symmetry; [apply Z.ltb_lt|apply Z.ltb_ge]; lia.
Qed.

Lemma mapE_withDisplayUrl l :
  Forall (fun r => ShortUrl r <> None) l ->
  exists t, mapE withDisplayUrl l = Some t /\ map reel t = l.
Proof.
  induction 1 as [|r l Hr Hl IH]; cbn [mapE].
  - now exists [].
  - destruct IH as (t & -> & Ht). unfold withDisplayUrl at 1.
    destruct (ShortUrl r) as [s|]; [|congruence].
    eexists. split; [reflexivity|]. cbn. now rewrite Ht.
Qed.

Lemma matchesFilter_defined (toLowerCase : string -> string) f item :
  ShortUrl item <> None ->
  matchesFilter toLowerCase f item =
  Some ((f =? "")%string
        || includes (toLowerCase (Reel (row item))) (toLowerCase f)
        || match ShortUrl item with
           | Some s => includes (toLowerCase s) (toLowerCase f)
           | None => false
           end).
Proof.
  intros H. unfold matchesFilter.
  destruct (f =? "")%string; [reflexivity|].
  destruct (includes (toLowerCase (Reel (row item))) (toLowerCase f));
    [reflexivity|].
  destruct (ShortUrl item); [reflexivity|congruence].
Qed.

(** Which records the predicate of the filter accepts. *)
Lemma matchesFilter_true (toLowerCase : string -> string) f item :
  matchesFilter toLowerCase f item = Some true <->
  f = EmptyString \/
  isSubstringIgnoringCase toLowerCase f (Reel (row item)) \/
  exists s, ShortUrl item = Some s /\ isSubstringIgnoringCase toLowerCase f s.
Proof.
  unfold matchesFilter. destruct (String.eqb_spec f "") as [->|Hne].
  - split; [intros _|reflexivity]. now left.
  - destruct (includes (toLowerCase (Reel (row item))) (toLowerCase f)) eqn:HR.
    + split; [intros _|reflexivity]. right. left.
      now apply includes_toLowerCase.
    + assert (HnR : ~ isSubstringIgnoringCase toLowerCase f (Reel (row item))).
      { intros H. apply includes_toLowerCase in H. congruence. }
      destruct (ShortUrl item) as [s|].
      * split.
        -- intros H. injection H as H. right. right. exists s.
           split; [reflexivity|]. now apply includes_toLowerCase.
        -- intros [H|[H|(s' & Hs & H)]]; [contradiction|contradiction|].
           injection Hs as <-.
           apply includes_toLowerCase in H. now rewrite H.
      * split; [discriminate|]. intros [H|[H|(s' & Hs & _)]];
          [contradiction|contradiction|discriminate].
Qed.

(** *** Pages *)

Lemma paginatedData_firstn_skipn (l : list ReelRecord) (p : Z) :
  1 <= p ->
  paginatedData l p = firstn 10 (skipn (Z.to_nat ((p - 1) * 10)) l).
Proof.
  intros Hp. unfold paginatedData, rowsPerPage.
  rewrite slice_nonneg by lia. f_equal.
  replace (p * 10 - (p - 1) * 10) with 10 by lia. reflexivity.
Qed.

Lemma concat_chunks {A : Type} (n : nat) : forall l : list A,
  (List.length l <= 10 * n)%nat ->
  List.concat (map (fun p => firstn 10 (skipn (10 * (p - 1)) l)) (seq 1 n)) = l.
Proof.
  induction n as [|n IH]; intros l Hl.
  - destruct l; [reflexivity|cbn in Hl; lia].
  - cbn [seq map List.concat]. change (10 * (1 - 1))%nat with 0%nat.
    cbn [skipn]. rewrite <- seq_shift, map_map.
    transitivity (firstn 10 l ++ skipn 10 l); [|apply firstn_skipn].
    f_equal.
    etransitivity; [|apply (IH (skipn 10 l)); rewrite length_skipn; lia].
    f_equal. apply map_ext_in. intros p Hp. apply in_seq in Hp.
    rewrite skipn_skipn. do 2 f_equal. lia.
Qed.

Lemma second_from_last {A : Type} (l : list A) :
  nth_error (slice (-2) (-1) l) 0 = nth_error (rev l) 1.
Proof.
  rewrite <- (rev_involutive l) at 1.
  destruct (rev l) as [|b [|a r]]; try reflexivity.
  cbn [rev nth_error]. unfold slice, relIndex.
  rewrite <- app_assoc, length_app. cbn [List.length app].
  change (-2 <? 0) with true. change (-1 <? 0) with true. cbv iota.
  replace (Z.to_nat (Z.max _ 0 - Z.max _ 0)) with 1%nat by lia.
  replace (Z.to_nat (Z.max _ 0)) with (List.length (rev r)) by lia.
  now rewrite skipn_app, skipn_all, Nat.sub_diag.
Qed.

(** [split] cuts at every separator and nowhere else. *)
Lemma split_nonempty sep s : split sep s <> [].
Proof.
  destruct s as [|c s]; cbn [split]; [discriminate|].
  destruct (c =? sep)%char; [discriminate|].
  destruct (split sep s); discriminate.
Qed.

Lemma split_app sep (a b : string) :
  split sep (a ++ String sep b) = split sep a ++ split sep b.
Proof.
  induction a as [|c a IH]; cbn [append split].
  - now rewrite Ascii.eqb_refl.
  - rewrite IH. destruct (c =? sep)%char; [reflexivity|].
    pose proof (split_nonempty sep a).
    now destruct (split sep a).
Qed.

Lemma split_noSlash (s : string) : noSlash s -> split "/" s = [s].
Proof.
  unfold noSlash, isSubstring. induction s as [|c s IH]; intros H;
    cbn [split]; [reflexivity|].
  destruct (Ascii.eqb_spec c "/") as [->|_].
  - exfalso. apply H. now exists EmptyString, s.
  - rewrite IH; [reflexivity|].
    intros (pre & post & ->). apply H. now exists (String c pre), post.
Qed.

(** The ShortUrl of a URL that ends in [seg/last]. *)
Lemma shortUrl_path (pre seg last : string) :
  noSlash seg -> noSlash last ->
  shortUrl (pre ++ "/" ++ seg ++ "/" ++ last) = Some seg.
Proof.
  intros Hseg Hlast. unfold shortUrl. rewrite second_from_last.
  cbn [append]. rewrite split_app, split_app.
  rewrite (split_noSlash seg), (split_noSlash last) by assumption.
  rewrite rev_app_distr. reflexivity.
Qed.

Lemma shortUrl_two_segments (seg last : string) :
  noSlash seg -> noSlash last ->
  shortUrl (seg ++ "/" ++ last) = Some seg.
Proof.
  intros Hseg Hlast. unfold shortUrl. rewrite second_from_last.
  cbn [append]. rewrite split_app.
  now rewrite (split_noSlash seg), (split_noSlash last) by assumption.
Qed.

Lemma shortUrl_one_segment (s : string) : noSlash s -> shortUrl s = None.
Proof.
  intros Hs. unfold shortUrl. rewrite second_from_last.
  now rewrite split_noSlash by assumption.
Qed.

Lemma mapIndexed_In log10 rows : forall index p,
  In p (mapIndexed log10 index rows) ->
  exists i r, In r rows /\ p = processRow log10 i r.
Proof.
  induction rows as [|r rows IH]; intros index p Hp; cbn [mapIndexed] in Hp.
  - contradiction.
  - destruct Hp as [<-|Hp].
    + exists index, r. split; [now left|reflexivity].
    + destruct (IH _ _ Hp) as (i & r' & Hr & ->).
      exists i, r'. split; [now right|reflexivity].
Qed.

Lemma mapIndexed_length log10 rows : forall index,
  List.length (mapIndexed log10 index rows) = List.length rows.
Proof.
  induction rows as [|r rows IH]; intros index; cbn [mapIndexed List.length];
    [reflexivity|now rewrite IH].
Qed.

(** The record at the place of a row is the row, processed. *)
Lemma mapIndexed_nth log10 rows : forall index (i : nat) r,
  nth_error rows i = Some r ->
  nth_error (mapIndexed log10 index rows) i =
  Some (processRow log10 (index + Z.of_nat i) r).
Proof.
  induction rows as [|r0 rows IH]; intros index i r Hr.
  - destruct i; discriminate.
  - destruct i as [|i]; cbn [nth_error mapIndexed] in *.
    + injection Hr as ->. now rewrite Z.add_0_r.
    + rewrite (IH (index + 1) i r Hr). do 2 f_equal. lia.
Qed.

Lemma Forall_firstn {A : Type} (P : A -> Prop) n (l : list A) :
  Forall P l -> Forall P (firstn n l).
Proof.
  intros H. rewrite <- (firstn_skipn n l) in H.
  now apply Forall_app in H.
Qed.

Lemma StronglySorted_of_map {A B : Type} (R : B -> B -> Prop) (f : A -> B) l :
  StronglySorted R (map f l) -> StronglySorted (fun a b => R (f a) (f b)) l.
Proof.
  induction l as [|x l IH]; cbn [map]; intros H; [constructor|].
  apply StronglySorted_inv in H. destruct H as [Hs Hall].
  constructor; [now apply IH|]. rewrite Forall_map in Hall. exact Hall.
Qed.

Lemma matchesFilter_false (toLowerCase : string -> string) f item s :
  f <> EmptyString ->
  ShortUrl item = Some s ->
  ~ isSubstringIgnoringCase toLowerCase f (Reel (row item)) ->
  ~ isSubstringIgnoringCase toLowerCase f s ->
  matchesFilter toLowerCase f item = Some false.
Proof.
  intros Hf Hs HR HS. unfold matchesFilter. rewrite Hs.
  destruct (String.eqb_spec f "") as [->|_]; [congruence|].
  destruct (includes (toLowerCase (Reel (row item))) (toLowerCase f)) eqn:E1.
  - exfalso. now apply HR, includes_toLowerCase.
  - destruct (includes (toLowerCase s) (toLowerCase f)) eqn:E2;
      [|reflexivity].
    exfalso. now apply HS, includes_toLowerCase.
Qed.

Lemma filter_none {A : Type} (q : A -> bool) (l : list A) :
  Forall (fun x => q x = false) l -> filter q l = [].
Proof.
  induction 1 as [|x l Hx Hl IH]; cbn [filter]; [reflexivity|].
  now rewrite Hx.
Qed.

Lemma not_isSubstringIgnoringCase (toLowerCase : string -> string) f s :
  includes (toLowerCase s) (toLowerCase f) = false ->
  ~ isSubstringIgnoringCase toLowerCase f s.
Proof. intros H Hc. apply includes_toLowerCase in Hc. congruence. Qed.

Lemma previousPage_ge_1 (p : Z) : 1 <= previousPage p.
Proof. unfold previousPage. lia. Qed.

(** The "Next" button never leads to a page that starts beyond the rows. *)
Lemma nextPage_in_range (filteredLength p : Z) :
  1 <= p ->
  (p - 1) * rowsPerPage < filteredLength \/ p = 1 ->
  (nextPage filteredLength p - 1) * rowsPerPage < filteredLength \/
  nextPage filteredLength p = 1.
Proof.
  unfold nextPage, rowsPerPage. intros Hp H.
  destruct (Z.ltb_spec (p * 10) filteredLength); [left; lia|assumption].
Qed.

(** * The claims *)

(** C1. The metric deriver turns the ingested rows into as many records,
    in order, and for every ingested row with [Views > 0] the record at
    its place carries the row, the [id] of its place, and
    [EngagementRate = (Likes + Comments) / Views * 100],
    [EngagementScore = (Likes * 1 + Comments * 3) / Views * 100], which is
    [(Likes + 3 * Comments) / Views * 100], and
    [ViralCoefficient = log10(Views) * EngagementRate / 100], in binary64
    arithmetic on the counts of the row. *)
Theorem processedData_metrics (log10 : float -> float) (rows : list Row)
  (i : nat) (r : Row) :
  nth_error rows i = Some r ->
  (0 <? Views r)%float = true ->
  List.length (processedData log10 rows) = List.length rows /\
  exists p,
    nth_error (processedData log10 rows) i = Some p /\
    row p = r /\
    id p = Z.of_nat i + 1 /\
    EngagementRate p = ((Likes r + Comments r) / Views r * 100)%float /\
    EngagementScore p =
      ((Likes r * 1 + Comments r * 3) / Views r * 100)%float /\
    EngagementScore p =
      ((Likes r + 3 * Comments r) / Views r * 100)%float /\
    ViralCoefficient p =
      (log10 (Views r) * ((Likes r + Comments r) / Views r * 100) / 100)%float.
Proof.
  intros Hr _. split; [apply mapIndexed_length|].
  exists (processRow log10 (Z.of_nat i) r). split.
  - unfold processedData. rewrite (mapIndexed_nth log10 rows 0 i r Hr).
    now rewrite Z.add_0_l.
  - unfold processRow. cbn [row id EngagementRate EngagementScore ViralCoefficient].
    repeat split. now rewrite mul_1_r, (mul_comm (Comments r)).
Qed.

(** The worked example: 1000 views, 100 likes and 10 comments give the
    rate 11 and the score 13. *)
Lemma processedData_metrics_example :
  nth_error [exampleRow] 0 = Some exampleRow /\
  (0 <? Views exampleRow)%float = true /\
  (List.length (processedData sampleLog10 [exampleRow]) = 1%nat /\
   exists p,
     nth_error (processedData sampleLog10 [exampleRow]) 0 = Some p /\
     row p = exampleRow /\
     id p = 1 /\
     EngagementRate p = 11%float /\
     EngagementScore p = 13%float /\
     EngagementScore p = 13%float /\
     ViralCoefficient p = 0%float).
Proof.
  split; [reflexivity|]. split; [reflexivity|].
  exact (processedData_metrics sampleLog10 [exampleRow] 0 exampleRow
           eq_refl eq_refl).
Defined.

(** C2, as the code has it.  For every record list in which every record
    has a ShortUrl, and every metric of the six, the top-10 list is
    produced (also by the effect, which leaves the initial empty list in
    place when there is no data) and has length
    [min(10, total number of records)]; when moreover no value of the
    selected metric is NaN, it is sorted descending by that metric. *)
Theorem newTop10_sorted (data : list ReelRecord) (m : Metric) :
  Forall (fun r => ShortUrl r <> None) data ->
  exists t,
    newTop10 data m = Some t /\
    updateTop10 data m [] = Some t /\
    List.length t = Nat.min 10 (List.length data) /\
    (Forall (fun r => is_nan (getMetric m r) = false) data ->
     sortedDescending m t).
Proof.
  intros Hurl.
  assert (Hupd : updateTop10 data m [] = newTop10 data m)
    by (now destruct data).
  rewrite Hupd. unfold newTop10.
  rewrite slice_nonneg by lia. cbn [Z.to_nat Z.sub Z.opp Z.add skipn].
  change (Z.to_nat 10) with 10%nat. rewrite rankedData_tableCompare.
  set (ranked := sort (tableCompare desc m) data).
  destruct (mapE_withDisplayUrl (firstn 10 ranked)) as (t & Ht & Hmap).
  { unfold ranked. apply Forall_firstn, sort_Forall. exact Hurl. }
  exists t. split; [assumption|]. split; [assumption|]. split.
  - rewrite <- (length_map reel), Hmap, length_firstn.
    unfold ranked. now rewrite sort_length.
  - intros Hnan.
    assert (Hnan' : Forall (fun r => is_nan (getMetric m r) = false) ranked)
      by (unfold ranked; apply sort_Forall; exact Hnan).
    assert (Hs : StronglySorted
                   (fun a b => - rank (getMetric m a) <= - rank (getMetric m b))
                   ranked).
    { apply (sort_sorted _ _ (fun r => is_nan (getMetric m r) = false));
        [|assumption].
      intros x y Hx Hy. now rewrite tableCompare_key. }
    unfold sortedDescending.
    apply (StronglySorted_firstn _ 10) in Hs. rewrite <- Hmap in Hs.
    apply StronglySorted_of_map in Hs.
    eapply (StronglySorted_weaken _ _
              (fun e => is_nan (getMetric m (reel e)) = false));
      [| |exact Hs].
    + intros a b Ha Hb Hab. cbn beta in Hab. rewrite leb_rank by assumption.
      apply Z.leb_le. lia.
    + apply (proj1 (Forall_map reel
                      (fun r => is_nan (getMetric m r) = false) t)).
      rewrite Hmap. now apply Forall_firstn.
Qed.

(** Two reels with 5 and 7 likes, ranked by likes: the one with 7 likes
    comes first. *)
Lemma newTop10_sorted_example :
  let data := processedData sampleLog10 tiedRows in
  Forall (fun r => ShortUrl r <> None) data /\
  Forall (fun r => is_nan (getMetric ByLikes r) = false) data /\
  exists t,
    newTop10 data ByLikes = Some t /\
    updateTop10 data ByLikes [] = Some t /\
    List.length t = 2%nat /\
    map (fun e => id (reel e)) t = [2; 1] /\
    sortedDescending ByLikes t.
Proof.
  assert (H1 : Forall (fun r => is_nan (getMetric ByLikes r) = false)
                 (processedData sampleLog10 tiedRows))
    by (repeat constructor).
  assert (H2 : Forall (fun r => ShortUrl r <> None)
                 (processedData sampleLog10 tiedRows))
    by (repeat constructor; discriminate).
  split; [exact H2|]. split; [exact H1|].
  destruct (newTop10_sorted _ ByLikes H2) as (t & Ht & Hu & Hlen & Hs).
  exists t. split; [exact Ht|]. split; [exact Hu|]. split; [exact Hlen|].
  split; [|exact (Hs H1)].
  assert (E : Some t = newTop10 (processedData sampleLog10 tiedRows) ByLikes)
    by (symmetry; exact Ht).
  vm_compute in E. injection E as ->. reflexivity.
Defined.

(** Without a ShortUrl there is no top 10: [reel.ShortUrl.slice] throws,
    and so does the filter once it gets to [item.ShortUrl.toLowerCase]. *)
Lemma undefined_ShortUrl_throws :
  shortUrl (Reel (row bareRecord)) = ShortUrl bareRecord /\
  newTop10 [bareRecord] ByViews = None /\
  matchesFilter asciiToLowerCase "x" bareRecord = None /\
  matchesFilter asciiToLowerCase "B" bareRecord = Some true.
Proof. repeat split. Qed.

(** The rows of [zeroViewsRows] are processed into [zeroViewsData], for a
    base-10 logarithm that is right at 100 and at 0. *)
Lemma zeroViewsData_processed (log10 : float -> float) :
  log10 100%float = 2%float -> log10 0%float = neg_infinity ->
  processedData log10 zeroViewsRows = zeroViewsData.
Proof.
  intros H100 H0. unfold processedData, zeroViewsRows, zeroViewsData.
  cbn [mapIndexed]. unfold processRow. cbn [Views Likes Comments Reel].
  rewrite H100, H0. reflexivity.
Qed.

(** C2, as stated, fails on a list with a NaN: a reel without views has the
    engagement rate [0 / 0]; every comparison with it is undecided, so the
    reels around it keep their order, here rate 1 before rate 2. *)
Lemma newTop10_nan_not_sorted :
  exists t,
    newTop10 zeroViewsData ByEngagementRate = Some t /\
    map (fun e => id (reel e)) t = [1; 2; 3] /\
    map (fun e => EngagementRate (reel e)) t = [1%float; nan; 2%float] /\
    ~ sortedDescending ByEngagementRate t.
Proof.
  eexists. split; [reflexivity|]. split; [reflexivity|].
  split; [reflexivity|].
  intros H. apply StronglySorted_inv in H. destruct H as [_ H].
  apply Forall_inv_tail, Forall_inv in H. discriminate H.
Qed.

(** The rows of [nanTieRows] are processed into [nanTieData], for a
    base-10 logarithm that is right at 100 and at 0. *)
Lemma nanTieData_processed (log10 : float -> float) :
  log10 100%float = 2%float -> log10 0%float = neg_infinity ->
  processedData log10 nanTieRows = nanTieData.
Proof.
  intros H100 H0. unfold processedData, nanTieRows, nanTieData.
  cbn [mapIndexed]. unfold processRow. cbn [Views Likes Comments Reel].
  rewrite H100, H0. reflexivity.
Qed.

(** C3, as stated, fails on a list with NaNs.  Seven reels with the rates
    2, NaN, 1, NaN, 2, 3, 2: the first five already are a run for the
    sort, every comparison with a NaN being undecided; the binary search
    then puts reel 6 behind the first NaN, and reel 7 behind reel 6,
    without ever meeting reel 5.  Reel 7 ends before reel 5, at the same
    rate; the table, sorted descending with no filter, shows the same
    order. *)
Lemma sorts_nan_not_stable :
  map id (rankedData nanTieData ByEngagementRate) = [1; 2; 6; 7; 3; 4; 5] /\
  map EngagementRate (rankedData nanTieData ByEngagementRate) =
    [2; nan; 3; 2; 1; nan; 2]%float /\
  filteredData asciiToLowerCase nanTieData EmptyString desc ByEngagementRate =
    Some (rankedData nanTieData ByEngagementRate) /\
  exists a b,
    nth_error (rankedData nanTieData ByEngagementRate) 3 = Some a /\
    nth_error (rankedData nanTieData ByEngagementRate) 6 = Some b /\
    (getMetric ByEngagementRate a =? getMetric ByEngagementRate b)%float = true /\
    id a = 7 /\ id b = 5.
Proof.
  split; [reflexivity|]. split; [reflexivity|]. split; [reflexivity|].
  do 2 eexists. repeat split.
Qed.

(** C3, as the code has it.  When no value of the selected metric is NaN,
    both sorts are stable: in the ranked list and in the filtered, sorted
    list of the table (ascending or descending), of two records with
    equal values of the selected metric the one ingested earlier (the
    smaller [id]) comes first. *)
Theorem sorts_stable (log10 : float -> float) (rows : list Row) (m : Metric) :
  let data := processedData log10 rows in
  Forall (fun r => is_nan (getMetric m r) = false) data ->
  (forall (i j : nat) a b,
     (i < j)%nat ->
     nth_error (rankedData data m) i = Some a ->
     nth_error (rankedData data m) j = Some b ->
     (getMetric m a =? getMetric m b)%float = true ->
     id a < id b) /\
  (forall toLowerCase f o out (i j : nat) a b,
     filteredData toLowerCase data f o m = Some out ->
     (i < j)%nat ->
     nth_error out i = Some a ->
     nth_error out j = Some b ->
     (getMetric m a =? getMetric m b)%float = true ->
     id a < id b).
Proof.
  intros data Hnan.
  assert (Hids : StronglySorted (fun a b => id a < id b) data)
    by apply mapIndexed_ids.
  assert (Hkey : forall o l (i j : nat) a b,
            Forall (fun r => is_nan (getMetric m r) = false) l ->
            StronglySorted (fun a b => id a < id b) l ->
            (i < j)%nat ->
            nth_error (sort (tableCompare o m) l) i = Some a ->
            nth_error (sort (tableCompare o m) l) j = Some b ->
            (getMetric m a =? getMetric m b)%float = true ->
            id a < id b).
  { intros o l i j a b HP Hl Hij Ha Hb Heq.
    apply eqb_true_rank in Heq. destruct Heq as (_ & _ & Hr).
    destruct o.
    - pose proof (sort_stable (tableCompare asc m)
                    (fun r => rank (getMetric m r))
                    (fun r => is_nan (getMetric m r) = false)
                    (fun x y Hx Hy => tableCompare_key m asc x y Hx Hy)
                    id l HP Hl) as Hs.
      now apply (StronglySorted_nth _ _ Hs i j a b Hij Ha Hb).
    - pose proof (sort_stable (tableCompare desc m)
                    (fun r => - rank (getMetric m r))
                    (fun r => is_nan (getMetric m r) = false)
                    (fun x y Hx Hy => tableCompare_key m desc x y Hx Hy)
                    id l HP Hl) as Hs.
      apply (StronglySorted_nth _ _ Hs i j a b Hij Ha Hb). cbn beta. lia. }
  split.
  - intros i j a b. rewrite rankedData_tableCompare. now apply Hkey.
  - intros toLowerCase f o out i j a b Hout. unfold filteredData in Hout.
    destruct (filterE (matchesFilter toLowerCase f) data) as [l|] eqn:Hf;
      [|discriminate].
    injection Hout as <-. apply filterE_Some in Hf. destruct Hf as [_ ->].
    apply Hkey; [|now apply StronglySorted_filter].
    rewrite Forall_forall in *. intros r Hr. apply filter_In in Hr.
    now apply Hnan.
Qed.

(** Two reels with 50 views each stay in ingestion order. *)
Lemma sorts_stable_example :
  let data := processedData sampleLog10 tiedRows in
  Forall (fun r => is_nan (getMetric ByViews r) = false) data /\
  exists a b,
    nth_error (rankedData data ByViews) 0 = Some a /\
    nth_error (rankedData data ByViews) 1 = Some b /\
    (getMetric ByViews a =? getMetric ByViews b)%float = true /\
    id a < id b.
Proof.
  assert (H : Forall (fun r => is_nan (getMetric ByViews r) = false)
                (processedData sampleLog10 tiedRows))
    by (repeat constructor).
  split; [exact H|].
  do 2 eexists. split; [reflexivity|]. split; [reflexivity|].
  split; [reflexivity|].
  apply (proj1 (sorts_stable sampleLog10 tiedRows ByViews H) 0%nat 1%nat);
    [lia|reflexivity|reflexivity|reflexivity].
Defined.



(** C5. For a list of [N] rows and a 1-based page number [p], the page is
    the slice [[(p-1)*10, p*10)] of the list: its [k]-th row is row
    [(p-1)*10 + k] for [k < 10].  Hence the page is not empty exactly when
    [p <= ceil(N/10)], and the last page holds [N mod 10] rows, or 10 when
    10 divides [N]. *)
Theorem paginatedData_pages (filtered : list ReelRecord) (p : Z) :
  1 <= p ->
  (forall k : nat,
     nth_error (paginatedData filtered p) k =
     if (k <? 10)%nat
     then nth_error filtered (Z.to_nat ((p - 1) * 10) + k)
     else None) /\
  (paginatedData filtered p <> [] <-> p <= Z.of_nat (pageCount filtered)) /\
  (p = Z.of_nat (pageCount filtered) ->
   List.length (paginatedData filtered p) =
   if (List.length filtered mod 10 =? 0)%nat then 10%nat
   else (List.length filtered mod 10)%nat).
Proof.
  intros Hp. rewrite paginatedData_firstn_skipn by assumption.
  set (a := Z.to_nat ((p - 1) * 10)).
  assert (Hlen : List.length (firstn 10 (skipn a filtered)) =
                 Nat.min 10 (List.length filtered - a))
    by now rewrite length_firstn, length_skipn.
  unfold pageCount. set (N := List.length filtered) in *.
  repeat split.
  - intros k. now rewrite nth_error_firstn, nth_error_skipn.
  - intros Hne.
    assert (List.length (firstn 10 (skipn a filtered)) <> 0)%nat
      by (destruct (firstn 10 (skipn a filtered)); [congruence|discriminate]).
    pose proof (Nat.div_mod_eq (N + 9) 10).
    pose proof (Nat.mod_upper_bound (N + 9) 10). lia.
  - intros Hle Heq. apply (f_equal (@List.length _)) in Heq.
    rewrite Hlen in Heq. cbn [List.length] in Heq.
    pose proof (Nat.div_mod_eq (N + 9) 10).
    pose proof (Nat.mod_upper_bound (N + 9) 10). lia.
  - intros Heq. rewrite Hlen.
    pose proof (Nat.div_mod_eq (N + 9) 10).
    pose proof (Nat.mod_upper_bound (N + 9) 10).
    pose proof (Nat.div_mod_eq N 10).
    pose proof (Nat.mod_upper_bound N 10).
    destruct (Nat.eqb_spec (N mod 10) 0); lia.
Qed.

(** A list of 23 rows has three pages, the last one of 3 rows. *)
Lemma paginatedData_pages_example :
  let filtered := repeat (processRow sampleLog10 0 exampleRow) 23 in
  1 <= 3 /\
  (forall k : nat,
     nth_error (paginatedData filtered 3) k =
     if (k <? 10)%nat
     then nth_error filtered (Z.to_nat ((3 - 1) * 10) + k)
     else None) /\
  (paginatedData filtered 3 <> [] <-> 3 <= Z.of_nat (pageCount filtered)) /\
  (3 = Z.of_nat (pageCount filtered) ->
   List.length (paginatedData filtered 3) =
   if (List.length filtered mod 10 =? 0)%nat then 10%nat
   else (List.length filtered mod 10)%nat).
Proof.
  split; [lia|]. apply paginatedData_pages. lia.
Defined.

(** C6, as the code has it.  For every record, [ShortUrl] is the
    second-from-last of the segments that splitting the Reel URL on "/"
    yields, empty segments counted: the segment [seg] of a URL
    [.../seg/last] or [seg/last], and undefined when the URL has no "/";
    for "https://x/y/aaa111" it is "y". *)
Theorem shortUrl_second_from_last (log10 : float -> float) (index : Z) (r : Row) :
  ShortUrl (processRow log10 index r) = nth_error (rev (split "/" (Reel r))) 1 /\
  (forall pre seg last,
     noSlash seg -> noSlash last ->
     Reel r = (pre ++ "/" ++ seg ++ "/" ++ last)%string ->
     ShortUrl (processRow log10 index r) = Some seg) /\
  (forall seg last,
     noSlash seg -> noSlash last ->
     Reel r = (seg ++ "/" ++ last)%string ->
     ShortUrl (processRow log10 index r) = Some seg) /\
  (noSlash (Reel r) -> ShortUrl (processRow log10 index r) = None) /\
  ShortUrl (processRow log10 index exampleRow) = Some "y"%string.
Proof.
  cbn [ShortUrl processRow]. repeat split.
  - apply second_from_last.
  - intros pre seg last Hseg Hlast ->. now apply shortUrl_path.
  - intros seg last Hseg Hlast ->. now apply shortUrl_two_segments.
  - apply shortUrl_one_segment.
Qed.

(** C6, as stated, fails on a URL that ends in "/": the code yields the
    last non-empty segment, not the one before it. *)
Lemma shortUrl_trailing_slash :
  shortUrl "https://x/y/aaa111/" = Some "aaa111"%string /\
  shortUrl_nonEmptySegments "https://x/y/aaa111/" = Some "y"%string.
Proof. split; reflexivity. Qed.

(** C7. For every page number [p] with [(p-1)*10] at or beyond the number
    of filtered rows, the paginator yields the empty list; no error is
    possible, [paginatedData] being total. *)
Theorem paginatedData_out_of_range (filtered : list ReelRecord) (p : Z) :
  Z.of_nat (List.length filtered) <= (p - 1) * 10 ->
  paginatedData filtered p = [].
Proof.
  intros H. rewrite paginatedData_firstn_skipn by lia.
  rewrite skipn_all2 by lia. apply firstn_nil.
Qed.

Lemma paginatedData_out_of_range_example :
  let filtered := repeat (processRow sampleLog10 0 exampleRow) 20 in
  Z.of_nat (List.length filtered) <= (3 - 1) * 10 /\
  paginatedData filtered 3 = [].
Proof.
  split; [cbn; lia|]. apply paginatedData_out_of_range. cbn. lia.
Defined.

(** C8. When the fetch or the parse fails, the component is ready
    ([loading = false]) with no records, and the statistics over no
    records are: total views, likes and comments 0, both averages NaN. *)
Theorem fetch_failure_stats (log10 : float -> float) :
  let s := fetchData log10 FetchFailed initialState in
  loading s = false /\ data s = [] /\
  totalViews (stats (data s)) = 0%float /\
  totalLikes (stats (data s)) = 0%float /\
  totalComments (stats (data s)) = 0%float /\
  is_nan (avgEngagementRate (stats (data s))) = true /\
  is_nan (avgEngagementScore (stats (data s))) = true.
Proof. cbn. repeat split; reflexivity. Qed.

(** C9, as the code has it.  For every record list and every filter string
    that is a case-insensitive substring of the ShortUrl of one record,
    while every other record has a ShortUrl and the filter string is a
    case-insensitive substring neither of its Reel URL nor of its
    ShortUrl, the filtered list is that one record.  The mapping to lower
    case is any that leaves the empty string empty. *)
Theorem filter_unique_match (toLowerCase : string -> string)
  (before after : list ReelRecord) (r : ReelRecord)
  (f s : string) (o : SortOrder) (m : Metric) :
  toLowerCase EmptyString = EmptyString ->
  ShortUrl r = Some s ->
  isSubstringIgnoringCase toLowerCase f s ->
  Forall (fun r' => exists s',
            ShortUrl r' = Some s' /\
            ~ isSubstringIgnoringCase toLowerCase f (Reel (row r')) /\
            ~ isSubstringIgnoringCase toLowerCase f s') (before ++ after) ->
  filteredData toLowerCase (before ++ r :: after) f o m = Some [r].
Proof.
  intros Hempty Hs Hsub Hothers.
  destruct (String.eqb_spec f EmptyString) as [->|Hf].
  { assert (Hnil : before ++ after = []).
    { destruct (before ++ after) as [|r' l]; [reflexivity|].
      apply Forall_inv in Hothers. destruct Hothers as (s' & _ & HR & _).
      exfalso. now apply HR, empty_isSubstringIgnoringCase. }
    apply app_eq_nil in Hnil. destruct Hnil as [-> ->]. reflexivity. }
  apply Forall_app in Hothers. destruct Hothers as [Hb Ha].
  assert (Hr : matchesFilter toLowerCase f r = Some true).
  { apply matchesFilter_true. right. right. exists s. now split. }
  assert (Hfalse : forall l,
            Forall (fun r' => exists s',
                      ShortUrl r' = Some s' /\
                      ~ isSubstringIgnoringCase toLowerCase f (Reel (row r')) /\
                      ~ isSubstringIgnoringCase toLowerCase f s') l ->
            Forall (fun x => matchesFilter toLowerCase f x = Some false) l).
  { intros l Hl. eapply Forall_impl; [|exact Hl].
    intros r' (s' & Hs' & HR & HS).
    exact (matchesFilter_false toLowerCase f r' s' Hf Hs' HR HS). }
  unfold filteredData.
  set (q := fun x => match matchesFilter toLowerCase f x with
                     | Some true => true
                     | _ => false
                     end).
  rewrite (filterE_filter _ q).
  - rewrite filter_app. cbn [filter]. unfold q at 2. rewrite Hr.
    rewrite !filter_none; [reflexivity| |].
    + eapply Forall_impl; [|exact (Hfalse _ Ha)].
      intros x H. unfold q. now rewrite H.
    + eapply Forall_impl; [|exact (Hfalse _ Hb)].
      intros x H. unfold q. now rewrite H.
  - apply Forall_app. split; [|constructor].
    + eapply Forall_impl; [|exact (Hfalse _ Hb)].
      intros x H. unfold q. now rewrite H.
    + unfold q. now rewrite Hr.
    + eapply Forall_impl; [|exact (Hfalse _ Ha)].
      intros x H. unfold q. now rewrite H.
Qed.

(** Filtering [hostData] by "XY" keeps the second reel only. *)
Lemma filter_unique_match_example :
  let r1 := nth 0 hostData (processRow sampleLog10 0 exampleRow) in
  let r2 := nth 1 hostData (processRow sampleLog10 0 exampleRow) in
  asciiToLowerCase EmptyString = EmptyString /\
  ShortUrl r2 = Some "xyz"%string /\
  isSubstringIgnoringCase asciiToLowerCase "XY" "xyz" /\
  Forall (fun r' => exists s',
            ShortUrl r' = Some s' /\
            ~ isSubstringIgnoringCase asciiToLowerCase "XY" (Reel (row r')) /\
            ~ isSubstringIgnoringCase asciiToLowerCase "XY" s') ([r1] ++ []) /\
  filteredData asciiToLowerCase ([r1] ++ r2 :: []) "XY" desc ByViews = Some [r2].
Proof.
  intros r1 r2.
  assert (H1 : ShortUrl r2 = Some "xyz"%string) by reflexivity.
  assert (H2 : isSubstringIgnoringCase asciiToLowerCase "XY" "xyz")
    by (apply includes_toLowerCase; reflexivity).
  assert (H3 : Forall (fun r' => exists s',
                  ShortUrl r' = Some s' /\
                  ~ isSubstringIgnoringCase asciiToLowerCase "XY" (Reel (row r')) /\
                  ~ isSubstringIgnoringCase asciiToLowerCase "XY" s') ([r1] ++ [])).
  { repeat constructor. exists "abc"%string. split; [reflexivity|].
    split; apply not_isSubstringIgnoringCase; reflexivity. }
  split; [reflexivity|]. split; [exact H1|]. split; [exact H2|].
  split; [exact H3|].
  exact (filter_unique_match asciiToLowerCase [r1] [] r2 "XY" "xyz"
           desc ByViews eq_refl H1 H2 H3).
Defined.

(** The rows of [hostRows] are processed into [hostData], for a base-10
    logarithm that is right at 100 and at 1000. *)
Lemma hostData_processed (log10 : float -> float) :
  log10 100%float = 2%float -> log10 1000%float = 3%float ->
  processedData log10 hostRows = hostData.
Proof.
  intros H100 H1000. unfold processedData, hostRows, hostData.
  cbn [mapIndexed]. unfold processRow. cbn [Views Likes Comments Reel].
  rewrite H100, H1000. reflexivity.
Qed.

(** C9, as stated, fails: "abc" is in the ShortUrl of the first reel only,
    but it is also the host of the second reel's URL, and the filter looks
    at the whole URL as well; both reels pass. *)
Lemma filter_matches_reel_url :
  exists r1 r2,
    hostData = [r1; r2] /\
    ShortUrl r1 = Some "abc"%string /\ ShortUrl r2 = Some "xyz"%string /\
    isSubstring "abc" "abc" /\ ~ isSubstring "abc" "xyz" /\
    filteredData asciiToLowerCase hostData "abc" desc ByViews = Some [r2; r1].
Proof.
  do 2 eexists. split; [reflexivity|]. split; [reflexivity|].
  split; [reflexivity|]. split; [apply includes_spec; reflexivity|].
  split; [|reflexivity].
  intros H. apply includes_spec in H. discriminate H.
Qed.

(** C10. The pages [1 .. ceil(N/10)] of a filtered, sorted list of [N]
    rows, one after the other, are that list: every row is on exactly one
    page, in order. *)
Theorem pages_concat (filtered : list ReelRecord) :
  List.concat (map (paginatedData filtered) (pageNumbers (pageCount filtered)))
  = filtered.
Proof.
  unfold pageNumbers. rewrite map_map.
  rewrite <- (concat_chunks (pageCount filtered) filtered) at 2.
  - f_equal. apply map_ext_in. intros p Hp. apply in_seq in Hp.
    rewrite paginatedData_firstn_skipn by lia. do 2 f_equal. lia.
  - unfold pageCount.
    pose proof (Nat.div_mod_eq (List.length filtered + 9) 10).
    pose proof (Nat.mod_upper_bound (List.length filtered + 9) 10). lia.
Qed.

(** * Further properties of the component *)

(** ** Ingestion *)

Lemma mapIndexed_rows log10 rows : forall index,
  map row (mapIndexed log10 index rows) = rows.
Proof.
  induction rows as [|r rows IH]; intros index; cbn [mapIndexed map];
    [reflexivity|]. now rewrite IH.
Qed.

Lemma mapIndexed_id_seq log10 rows : forall index,
  map id (mapIndexed log10 index rows) =
  map (fun k => index + Z.of_nat k) (seq 1 (List.length rows)).
Proof.
  induction rows as [|r rows IH]; intros index; cbn [mapIndexed map];
    [reflexivity|].
  cbn [List.length seq map]. f_equal; try (cbn; lia).
  rewrite IH, <- (seq_shift (List.length rows) 1), map_map.
  apply map_ext. intros k. lia.
Qed.

Lemma mapE_typedRow_Some (rows : list ParsedRow) :
  Forall (fun r => reelCell r <> None) rows ->
  exists typed,
    mapE typedRow rows = Some typed /\
    List.length typed = List.length rows /\
    map (fun r => Some (Reel r)) typed = map reelCell rows /\
    map Views typed = map viewsCell rows /\
    map Likes typed = map likesCell rows /\
    map Comments typed = map commentsCell rows.
Proof.
  induction 1 as [|r rows Hr Hrows IH]; cbn [mapE].
  - exists []. repeat split.
  - destruct IH as (typed & -> & Hlen & HR & HV & HL & HC).
    unfold typedRow at 1. destruct (reelCell r) as [reel|] eqn:E; [|congruence].
    eexists. split; [reflexivity|]. cbn [map List.length Reel Views Likes Comments].
    now rewrite Hlen, HR, HV, HL, HC, E.
Qed.

Lemma mapE_typedRow_None (rows : list ParsedRow) :
  Exists (fun r => reelCell r = None) rows -> mapE typedRow rows = None.
Proof.
  induction 1 as [r rows Hr|r rows Hrows IH]; cbn [mapE].
  - unfold typedRow. now rewrite Hr.
  - rewrite IH. now destruct (typedRow r).
Qed.

(** X1. A completed parse leaves the component ready.  When the Reel cell
    of every row is a string, the parse replaces whatever was loaded: the
    records carry the cells of the parsed rows unchanged and in order, and
    their ids are 1, 2, ..., n.  When the Reel cell of some row is not a
    string, [row.Reel.split] throws, and nothing of the file is loaded:
    the records stay what they were. *)
Theorem fetchData_complete (log10 : float -> float) (rows : list ParsedRow)
  (s : State) :
  let s' := fetchData log10 (ParseComplete rows) s in
  loading s' = false /\
  (Forall (fun r => reelCell r <> None) rows ->
   map (fun p => Some (Reel (row p))) (data s') = map reelCell rows /\
   map (fun p => Views (row p)) (data s') = map viewsCell rows /\
   map (fun p => Likes (row p)) (data s') = map likesCell rows /\
   map (fun p => Comments (row p)) (data s') = map commentsCell rows /\
   map id (data s') = map Z.of_nat (seq 1 (List.length rows))) /\
  (Exists (fun r => reelCell r = None) rows -> data s' = data s).
Proof.
  cbn zeta. unfold fetchData. split; [now destruct (mapE typedRow rows)|].
  split.
  - intros Hrows.
    destruct (mapE_typedRow_Some rows Hrows)
      as (typed & -> & Hlen & HR & HV & HL & HC).
    cbn [data]. rewrite <- HR, <- HV, <- HL, <- HC, <- Hlen.
    rewrite <- (mapIndexed_rows log10 typed 0) at 2 4 6 8.
    fold (processedData log10 typed). rewrite !map_map. repeat split.
    unfold processedData. rewrite mapIndexed_id_seq. now apply map_ext.
  - intros Hrows. now rewrite (mapE_typedRow_None rows Hrows).
Qed.

(** Two parsed rows load as two records; with an empty Reel cell in the
    second row, they do not replace the record loaded before. *)
Lemma fetchData_complete_example :
  let good :=
    [ {| reelCell := Some "https://x/r1/"%string; viewsCell := 50;
         likesCell := 5; commentsCell := 1 |};
      {| reelCell := Some "https://x/r2/"%string; viewsCell := 50;
         likesCell := 7; commentsCell := 2 |} ] in
  let bad :=
    [ {| reelCell := Some "https://x/r1/"%string; viewsCell := 50;
         likesCell := 5; commentsCell := 1 |};
      {| reelCell := None; viewsCell := 50;
         likesCell := 7; commentsCell := 2 |} ] in
  let s := {| data := [bareRecord]; loading := true |} in
  (Forall (fun r => reelCell r <> None) good /\
   map id (data (fetchData sampleLog10 (ParseComplete good) s)) = [1; 2]) /\
  (Exists (fun r => reelCell r = None) bad /\
   data (fetchData sampleLog10 (ParseComplete bad) s) = [bareRecord] /\
   loading (fetchData sampleLog10 (ParseComplete bad) s) = false).
Proof.
  intros good bad s. split.
  - assert (H : Forall (fun r => reelCell r <> None) good)
      by (repeat constructor; discriminate).
    split; [exact H|].
    exact (proj2 (proj2 (proj2 (proj2
      (proj1 (proj2 (fetchData_complete sampleLog10 good s)) H))))).
  - assert (H : Exists (fun r => reelCell r = None) bad)
      by (right; left; reflexivity).
    split; [exact H|]. split.
    + exact (proj2 (proj2 (fetchData_complete sampleLog10 bad s)) H).
    + exact (proj1 (fetchData_complete sampleLog10 bad s)).
Defined.

(** ** The table *)

Lemma StronglySorted_lt_NoDup {A : Type} (ord : A -> Z) (l : list A) :
  StronglySorted (fun a b => ord a < ord b) l -> NoDup (map ord l).
Proof.
  induction 1 as [|a l Hs IH Hall]; cbn [map]; constructor; [|assumption].
  rewrite Forall_forall in Hall. intros Hin. apply in_map_iff in Hin.
  destruct Hin as (b & Hb & Hin). specialize (Hall b Hin). lia.
Qed.

Lemma NoDup_firstn {A : Type} n (l : list A) : NoDup l -> NoDup (firstn n l).
Proof.
  intros H. rewrite <- (firstn_skipn n l) in H.
  now apply NoDup_app_remove_r in H.
Qed.

Lemma NoDup_skipn {A : Type} n (l : list A) : NoDup l -> NoDup (skipn n l).
Proof.
  intros H. rewrite <- (firstn_skipn n l) in H.
  now apply NoDup_app_remove_l in H.
Qed.

Lemma NoDup_slice {A : Type} a b (l : list A) : NoDup l -> NoDup (slice a b l).
Proof. intros H. unfold slice. now apply NoDup_firstn, NoDup_skipn. Qed.

Lemma map_slice {A B : Type} (f : A -> B) a b (l : list A) :
  map f (slice a b l) = slice a b (map f l).
Proof.
  unfold slice. now rewrite length_map, skipn_map, firstn_map.
Qed.

(** The filtered list is the stable sort of the records that pass. *)
Lemma filteredData_Some (toLowerCase : string -> string) data f o m out :
  filteredData toLowerCase data f o m = Some out ->
  out = sort (tableCompare o m)
          (filter (fun x => match matchesFilter toLowerCase f x with
                            | Some true => true
                            | _ => false
                            end) data) /\
  Forall (fun x => matchesFilter toLowerCase f x <> None) data.
Proof.
  unfold filteredData. intros H.
  destruct (filterE (matchesFilter toLowerCase f) data) as [l|] eqn:Hf; [|discriminate].
  injection H as <-. apply filterE_Some in Hf. destruct Hf as [HF ->]. auto.
Qed.

(** X2. Whatever the filter, the order, the metric and the page, the rows
    of a page have pairwise distinct ids (their React keys). *)
Theorem paginatedData_keys_distinct (toLowerCase : string -> string)
  (log10 : float -> float) (rows : list Row)
  (f : string) (o : SortOrder) (m : Metric) (out : list ReelRecord) (p : Z) :
  filteredData toLowerCase (processedData log10 rows) f o m = Some out ->
  NoDup (map id (paginatedData out p)).
Proof.
  intros H. apply filteredData_Some in H. destruct H as [-> _].
  unfold paginatedData. rewrite map_slice. apply NoDup_slice.
  eapply Permutation_NoDup.
  - symmetry. apply Permutation_map, sort_perm.
  - apply StronglySorted_lt_NoDup, StronglySorted_filter.
    apply mapIndexed_ids.
Qed.

Lemma paginatedData_keys_distinct_example :
  filteredData asciiToLowerCase (processedData sampleLog10 tiedRows) "r" asc ByLikes =
    Some (processedData sampleLog10 tiedRows) /\
  NoDup (map id (paginatedData (processedData sampleLog10 tiedRows) 1)).
Proof.
  assert (H : filteredData asciiToLowerCase (processedData sampleLog10 tiedRows) "r" asc ByLikes =
              Some (processedData sampleLog10 tiedRows)) by reflexivity.
  split; [exact H|].
  exact (paginatedData_keys_distinct asciiToLowerCase sampleLog10 tiedRows "r"
           asc ByLikes _ 1 H).
Defined.

(** X3. Changing the ranking metric or the sort order only reorders the
    table: if the filtered list exists for one choice it exists for every
    other, with the same rows. *)
Theorem filteredData_reorders (toLowerCase : string -> string)
  (data : list ReelRecord) (f : string)
  (o1 o2 : SortOrder) (m1 m2 : Metric) (out1 : list ReelRecord) :
  filteredData toLowerCase data f o1 m1 = Some out1 ->
  exists out2,
    filteredData toLowerCase data f o2 m2 = Some out2 /\ Permutation out1 out2.
Proof.
  unfold filteredData. intros H.
  destruct (filterE (matchesFilter toLowerCase f) data) as [l|]; [|discriminate].
  injection H as <-. eexists. split; [reflexivity|].
  rewrite sort_perm. symmetry. apply sort_perm.
Qed.

Lemma filteredData_reorders_example :
  filteredData asciiToLowerCase hostData "x" desc ByViews = Some (rev hostData) /\
  exists out2,
    filteredData asciiToLowerCase hostData "x" asc ByLikes = Some out2 /\
    Permutation (rev hostData) out2.
Proof.
  assert (H : filteredData asciiToLowerCase hostData "x" desc ByViews = Some (rev hostData))
    by reflexivity.
  split; [exact H|].
  exact (filteredData_reorders asciiToLowerCase hostData "x" desc asc
           ByViews ByLikes _ H).
Defined.

(** X4. When no value of the selected metric is NaN, the filtered list is
    in order: ascending by that metric for [asc], descending for [desc]. *)
Theorem filteredData_sorted (toLowerCase : string -> string)
  (data : list ReelRecord) (f : string)
  (o : SortOrder) (m : Metric) (out : list ReelRecord) :
  Forall (fun r => is_nan (getMetric m r) = false) data ->
  filteredData toLowerCase data f o m = Some out ->
  StronglySorted
    (fun a b =>
       match o with
       | asc => (getMetric m a <=? getMetric m b)%float = true
       | desc => (getMetric m b <=? getMetric m a)%float = true
       end) out.
Proof.
  intros Hnan H. apply filteredData_Some in H. destruct H as [-> _].
  set (l := filter _ data).
  assert (Hl : Forall (fun r => is_nan (getMetric m r) = false) l).
  { rewrite Forall_forall in *. intros r Hr. apply filter_In in Hr.
    now apply Hnan. }
  destruct o.
  - eapply (StronglySorted_weaken _ _
              (fun r => is_nan (getMetric m r) = false));
      [|apply sort_Forall; exact Hl
       |apply (sort_sorted _ (fun r => rank (getMetric m r))
                 (fun r => is_nan (getMetric m r) = false)); [|exact Hl]].
    + intros a b Ha Hb Hab. cbn beta in Hab. rewrite leb_rank by assumption.
      apply Z.leb_le. lia.
    + intros x y Hx Hy. now rewrite tableCompare_key.
  - eapply (StronglySorted_weaken _ _
              (fun r => is_nan (getMetric m r) = false));
      [|apply sort_Forall; exact Hl
       |apply (sort_sorted _ (fun r => - rank (getMetric m r))
                 (fun r => is_nan (getMetric m r) = false)); [|exact Hl]].
    + intros a b Ha Hb Hab. cbn beta in Hab. rewrite leb_rank by assumption.
      apply Z.leb_le. lia.
    + intros x y Hx Hy. now rewrite tableCompare_key.
Qed.

Lemma filteredData_sorted_example :
  Forall (fun r => is_nan (getMetric ByViews r) = false) hostData /\
  filteredData asciiToLowerCase hostData "x" asc ByViews = Some hostData /\
  StronglySorted
    (fun a b => (getMetric ByViews a <=? getMetric ByViews b)%float = true)
    hostData.
Proof.
  assert (H1 : Forall (fun r => is_nan (getMetric ByViews r) = false) hostData)
    by (repeat constructor).
  assert (H2 : filteredData asciiToLowerCase hostData "x" asc ByViews = Some hostData)
    by reflexivity.
  split; [exact H1|]. split; [exact H2|].
  exact (filteredData_sorted asciiToLowerCase hostData "x" asc ByViews hostData
           H1 H2).
Defined.

Local Open Scope string_scope.

Lemma string_app_assoc (a b c : string) : (a ++ b) ++ c = a ++ (b ++ c).
Proof. induction a as [|c0 a IH]; cbn; [reflexivity|now rewrite IH]. Qed.

Lemma isSubstring_trans (a b c : string) :
  isSubstring a b -> isSubstring b c -> isSubstring a c.
Proof.
  intros (p1 & q1 & ->) (p2 & q2 & ->).
  exists (p2 ++ p1), (q1 ++ q2). now rewrite !string_app_assoc.
Qed.

(** The segments of a split are pieces of the string, the first one a
    prefix. *)
Lemma split_segments sep (s : string) :
  (exists hd rest post, split sep s = hd :: rest /\ s = hd ++ post) /\
  (forall seg, In seg (split sep s) -> isSubstring seg s).
Proof.
  induction s as [|c s [(hd & rest & post & Hsp & Hs) IH]]; cbn [split].
  - split.
    + now exists "", [], "".
    + intros seg [<-|[]]. now exists "", "".
  - destruct (c =? sep)%char.
    + split.
      * now exists "", (split sep s), (String c s).
      * intros seg [<-|Hin]; [now exists "", (String c s)|].
        destruct (IH seg Hin) as (p & q & ->).
        now exists (String c p), q.
    + rewrite Hsp. split.
      * exists (String c hd), rest, post. cbn. now rewrite <- Hs.
      * intros seg [<-|Hin].
        -- exists "", post. cbn. now rewrite <- Hs.
        -- destruct (IH seg) as (p & q & ->);
             [rewrite Hsp; now right|].
           now exists (String c p), q.
Qed.

Lemma shortUrl_isSubstring (u s : string) :
  shortUrl u = Some s -> isSubstring s u.
Proof.
  unfold shortUrl. rewrite second_from_last. intros H.
  apply nth_error_In, in_rev in H. now apply (split_segments "/" u).
Qed.

(** No segment of a split on "/" holds a "/". *)
Lemma split_Forall_noSlash (s : string) : Forall noSlash (split "/" s).
Proof.
  induction s as [|c s IH]; cbn [split].
  - repeat constructor. intros (pre & post & H). destruct pre; discriminate.
  - destruct (Ascii.eqb_spec c "/") as [->|Hc].
    + constructor; [|exact IH].
      intros (pre & post & H). destruct pre; discriminate.
    + destruct (split "/" s) as [|seg rest]; constructor.
      * intros (pre & post & H). destruct pre as [|d pre]; cbn in H.
        -- injection H as H _. congruence.
        -- destruct pre; discriminate.
      * constructor.
      * apply Forall_inv in IH. intros (pre & post & H).
        destruct pre as [|d pre]; cbn in H.
        -- injection H as H _. congruence.
        -- injection H as _ H. apply IH. now exists pre, post.
      * now apply Forall_inv_tail in IH.
Qed.

Lemma shortUrl_noSlash (u s : string) : shortUrl u = Some s -> noSlash s.
Proof.
  unfold shortUrl. rewrite second_from_last. intros H.
  apply nth_error_In, in_rev in H.
  pose proof (split_Forall_noSlash u) as HF. rewrite Forall_forall in HF.
  now apply HF.
Qed.

Local Close Scope string_scope.

Lemma filteredData_defined (toLowerCase : string -> string) data f o m :
  Forall (fun r => ShortUrl r <> None) data ->
  filteredData toLowerCase data f o m =
  Some (sort (tableCompare o m)
          (filter (fun x => match matchesFilter toLowerCase f x with
                            | Some true => true
                            | _ => false
                            end) data)).
Proof.
  intros H. unfold filteredData. erewrite filterE_filter; [reflexivity|].
  eapply Forall_impl; [|exact H]. intros r Hr. cbn beta.
  rewrite (matchesFilter_defined toLowerCase f r Hr).
  now destruct (_ || _ || _).
Qed.

Lemma filter_length_le {A : Type} (q q' : A -> bool) (l : list A) :
  (forall x, In x l -> q' x = true -> q x = true) ->
  (List.length (filter q' l) <= List.length (filter q l))%nat.
Proof.
  induction l as [|x l IH]; intros H; cbn [filter]; [lia|].
  assert (IH' := IH (fun y Hy => H y (or_intror Hy))).
  destruct (q' x) eqn:E'.
  - rewrite (H x (or_introl eq_refl) E'). cbn. lia.
  - destruct (q x); cbn; lia.
Qed.

(** X5. Narrowing the filter: when the filter string [f] occurs, once both
    are lower-cased, in a non-empty filter string [f'], every record that
    passes [f'] passes [f], and the list filtered by [f'] holds only
    records of the list filtered by [f], and no more of them. *)
Theorem filter_narrowing (toLowerCase : string -> string)
  (data : list ReelRecord) (f f' : string) (o : SortOrder) (m : Metric) :
  f' <> EmptyString ->
  isSubstring (toLowerCase f) (toLowerCase f') ->
  (forall item, matchesFilter toLowerCase f' item = Some true ->
                matchesFilter toLowerCase f item = Some true) /\
  (Forall (fun r => ShortUrl r <> None) data ->
   exists out out',
     filteredData toLowerCase data f o m = Some out /\
     filteredData toLowerCase data f' o m = Some out' /\
     incl out' out /\
     (List.length out' <= List.length out)%nat).
Proof.
  intros Hne Hff.
  assert (Hmono : forall item, matchesFilter toLowerCase f' item = Some true ->
                               matchesFilter toLowerCase f item = Some true).
  { intros item H. apply matchesFilter_true in H. apply matchesFilter_true.
    destruct H as [H|[H|(s & Hs & H)]]; [contradiction| |].
    - right. left. unfold isSubstringIgnoringCase in *.
      eapply isSubstring_trans; eassumption.
    - right. right. exists s. split; [assumption|].
      unfold isSubstringIgnoringCase in *.
      eapply isSubstring_trans; eassumption. }
  split; [exact Hmono|]. intros Hurl.
  rewrite !filteredData_defined by assumption.
  do 2 eexists. split; [reflexivity|]. split; [reflexivity|].
  assert (Hq : forall x, In x data ->
             match matchesFilter toLowerCase f' x with
             | Some true => true | _ => false end = true ->
             match matchesFilter toLowerCase f x with
             | Some true => true | _ => false end = true).
  { intros x _ H. destruct (matchesFilter toLowerCase f' x) as [[|]|] eqn:E;
      try discriminate. now rewrite (Hmono x E). }
  split.
  - intros r Hr. apply sort_In, filter_In in Hr. destruct Hr as [Hin Hr].
    apply sort_In, filter_In. split; [assumption|]. now apply Hq.
  - rewrite !sort_length. now apply filter_length_le.
Qed.

(** Of the two reels of [hostData], "x" keeps both and "XY" the second. *)
Lemma filter_narrowing_example :
  "XY"%string <> EmptyString /\
  isSubstring (asciiToLowerCase "x") (asciiToLowerCase "XY") /\
  Forall (fun r => ShortUrl r <> None) hostData /\
  (forall item, matchesFilter asciiToLowerCase "XY" item = Some true ->
                matchesFilter asciiToLowerCase "x" item = Some true) /\
  exists out out',
    filteredData asciiToLowerCase hostData "x" desc ByViews = Some out /\
    filteredData asciiToLowerCase hostData "XY" desc ByViews = Some out' /\
    incl out' out /\
    (List.length out' <= List.length out)%nat.
Proof.
  assert (H0 : "XY"%string <> EmptyString) by discriminate.
  assert (H : isSubstring (asciiToLowerCase "x") (asciiToLowerCase "XY"))
    by (apply includes_spec; reflexivity).
  assert (H1 : Forall (fun r => ShortUrl r <> None) hostData)
    by (repeat constructor; discriminate).
  split; [exact H0|]. split; [exact H|]. split; [exact H1|].
  pose proof (filter_narrowing asciiToLowerCase hostData "x" "XY"
                desc ByViews H0 H) as [Hitem Hlist].
  split; [exact Hitem|exact (Hlist H1)].
Defined.

(** X6. For an ingested record the ShortUrl, when there is one, is a piece
    of the Reel URL, and holds no "/". *)
Theorem ingested_ShortUrl_in_Reel (log10 : float -> float) (rows : list Row)
  (p : ReelRecord) (s : string) :
  In p (processedData log10 rows) ->
  ShortUrl p = Some s ->
  isSubstring s (Reel (row p)) /\ noSlash s.
Proof.
  intros Hin. apply mapIndexed_In in Hin. destruct Hin as (i & r & _ & ->).
  cbn [ShortUrl row Reel processRow]. intros H. split.
  - now apply shortUrl_isSubstring.
  - now apply (shortUrl_noSlash (Reel r)).
Qed.

Lemma ingested_ShortUrl_in_Reel_example :
  let p := processRow sampleLog10 0 exampleRow in
  In p (processedData sampleLog10 [exampleRow]) /\
  ShortUrl p = Some "y"%string /\
  isSubstring "y" "https://x/y/aaa111" /\ noSlash "y".
Proof.
  assert (H : In (processRow sampleLog10 0 exampleRow)
                (processedData sampleLog10 [exampleRow])) by (now left).
  split; [exact H|]. split; [reflexivity|].
  exact (ingested_ShortUrl_in_Reel sampleLog10 [exampleRow] _ "y" H eq_refl).
Defined.

(** ** The top 10 *)

Lemma mapE_Forall2 {A B : Type} (f : A -> option B) (l : list A) (t : list B) :
  mapE f l = Some t -> Forall2 (fun a b => f a = Some b) l t.
Proof.
  revert t. induction l as [|a l IH]; cbn [mapE]; intros t H.
  - injection H as <-. constructor.
  - destruct (f a) as [b|] eqn:Hb; [|discriminate].
    destruct (mapE f l) as [t'|]; [|discriminate].
    injection H as <-. constructor; auto.
Qed.

Lemma withDisplayUrl_reel r e : withDisplayUrl r = Some e -> reel e = r.
Proof.
  unfold withDisplayUrl. destruct (ShortUrl r); [|discriminate].
  now intros [= <-].
Qed.

Lemma mapE_withDisplayUrl_reels l t :
  mapE withDisplayUrl l = Some t -> map reel t = l.
Proof.
  intros H. apply mapE_Forall2 in H.
  induction H as [|r e l t' Hre _ IH]; cbn [map]; [reflexivity|].
  now rewrite IH, (withDisplayUrl_reel r e Hre).
Qed.

Lemma newTop10_reels data m t :
  newTop10 data m = Some t ->
  map reel t = firstn 10 (sort (tableCompare desc m) data).
Proof.
  unfold newTop10. rewrite slice_nonneg by lia. cbn [Z.to_nat Z.sub Z.opp Z.add skipn].
  change (Z.to_nat 10) with 10%nat. rewrite rankedData_tableCompare.
  apply mapE_withDisplayUrl_reels.
Qed.

Lemma filteredData_empty_filter (toLowerCase : string -> string) data o m :
  filteredData toLowerCase data EmptyString o m = Some (sort (tableCompare o m) data).
Proof.
  unfold filteredData.
  rewrite (filterE_filter _ (fun _ => true)) by (apply Forall_forall; reflexivity).
  f_equal. f_equal. induction data as [|a l IH]; cbn; [reflexivity|].
  now rewrite IH.
Qed.

(** X7. The chart and the table agree: whenever the top 10 exists, the
    first page of the unfiltered table in descending order shows the
    records of the top 10, in the same order. *)
Theorem top10_is_first_page (toLowerCase : string -> string)
  (data : list ReelRecord) (m : Metric)
  (t : list Top10Entry) :
  newTop10 data m = Some t ->
  exists out,
    filteredData toLowerCase data EmptyString desc m = Some out /\
    paginatedData out 1 = map reel t.
Proof.
  intros H. rewrite filteredData_empty_filter. eexists. split; [reflexivity|].
  rewrite (newTop10_reels _ _ _ H), paginatedData_firstn_skipn by lia.
  reflexivity.
Qed.

Lemma top10_is_first_page_example :
  exists t,
    newTop10 hostData ByViews = Some t /\
    exists out,
      filteredData asciiToLowerCase hostData EmptyString desc ByViews = Some out /\
      paginatedData out 1 = map reel t.
Proof.
  eexists. split; [reflexivity|].
  exact (top10_is_first_page asciiToLowerCase hostData ByViews _ eq_refl).
Defined.

(** X8. The top 10 are the top: when no value of the selected metric is
    NaN, the records of the top 10 together with the records left out are
    the whole list, and no record left out has a larger value of the
    metric than a record of the top 10. *)
Theorem top10_dominates (data : list ReelRecord) (m : Metric)
  (t : list Top10Entry) :
  Forall (fun r => is_nan (getMetric m r) = false) data ->
  newTop10 data m = Some t ->
  exists rest,
    Permutation (map reel t ++ rest) data /\
    forall e r, In e t -> In r rest ->
      (getMetric m r <=? getMetric m (reel e))%float = true.
Proof.
  intros Hnan H. apply newTop10_reels in H.
  set (ranked := sort (tableCompare desc m) data) in *.
  exists (skipn 10 ranked). rewrite H, firstn_skipn. split.
  - apply sort_perm.
  - intros e r He Hr.
    assert (Hranked : Forall (fun r => is_nan (getMetric m r) = false) ranked)
      by (unfold ranked; apply sort_Forall; exact Hnan).
    assert (Hs : StronglySorted
                   (fun a b => - rank (getMetric m a) <= - rank (getMetric m b))
                   ranked).
    { apply (sort_sorted _ _ (fun r => is_nan (getMetric m r) = false));
        [|assumption].
      intros a b Ha Hb. now rewrite tableCompare_key. }
    rewrite <- (firstn_skipn 10 ranked) in Hs, Hranked.
    apply Forall_app in Hranked. destruct Hranked as [H1 H2].
    assert (Hin : In (reel e) (firstn 10 ranked))
      by (rewrite <- H; now apply in_map).
    pose proof (StronglySorted_app_cross _ _ _ Hs _ _ Hin Hr) as Hle.
    rewrite Forall_forall in H1, H2.
    rewrite leb_rank by auto. apply Z.leb_le. cbn beta in Hle. lia.
Qed.

(** Twelve reels: the top 10 by views leave out the two with the fewest
    views, reels 3 and 8. *)
Lemma top10_dominates_example :
  let data := processedData sampleLog10 twelveRows in
  Forall (fun r => is_nan (getMetric ByViews r) = false) data /\
  exists t,
    newTop10 data ByViews = Some t /\
    map (fun e => id (reel e)) t = [2; 11; 6; 4; 9; 12; 1; 7; 10; 5] /\
    exists rest,
      List.length rest = 2%nat /\
      Permutation (map reel t ++ rest) data /\
      forall e r, In e t -> In r rest ->
        (getMetric ByViews r <=? getMetric ByViews (reel e))%float = true.
Proof.
  intros data.
  assert (H1 : Forall (fun r => is_nan (getMetric ByViews r) = false) data)
    by (repeat constructor).
  split; [exact H1|].
  set (t := match newTop10 data ByViews with Some t => t | None => [] end).
  assert (Ht : newTop10 data ByViews = Some t) by (vm_compute; reflexivity).
  exists t. split; [exact Ht|]. split; [vm_compute; reflexivity|].
  destruct (top10_dominates data ByViews t H1 Ht) as (rest & Hperm & Hdom).
  exists rest. split; [|split; [exact Hperm|exact Hdom]].
  apply Permutation_length in Hperm. rewrite length_app, length_map in Hperm.
  assert (Hlt : List.length t = 10%nat) by (vm_compute; reflexivity).
  assert (Hld : List.length data = 12%nat) by (vm_compute; reflexivity).
  lia.
Defined.

Local Open Scope string_scope.

Lemma substring_all (s : string) : substring 0 (String.length s) s = s.
Proof. induction s as [|c s IH]; cbn; [reflexivity|now rewrite IH]. Qed.

Lemma substring_suffix (n : nat) : forall s : string,
  (n <= String.length s)%nat ->
  exists pre,
    s = pre ++ substring n (String.length s - n) s /\ String.length pre = n.
Proof.
  induction n as [|n IH]; intros s Hn.
  - exists "". rewrite Nat.sub_0_r, substring_all. auto.
  - destruct s as [|c s]; [cbn in Hn; lia|].
    cbn [String.length] in *. destruct (IH s) as (pre & Hs & Hpre); [lia|].
    exists (String c pre). cbn [substring append String.length Nat.sub].
    split; [now rewrite <- Hs|now rewrite Hpre].
Qed.

Lemma string_app_length (a b : string) :
  String.length (a ++ b) = (String.length a + String.length b)%nat.
Proof. induction a as [|c a IH]; cbn; [reflexivity|now rewrite IH]. Qed.

Lemma withDisplayUrl_suffix (r : ReelRecord) (e : Top10Entry) :
  withDisplayUrl r = Some e ->
  exists s pre,
    ShortUrl r = Some s /\ s = pre ++ DisplayUrl e /\
    String.length (DisplayUrl e) = Nat.min 5 (String.length s).
Proof.
  unfold withDisplayUrl. destruct (ShortUrl r) as [s|]; [|discriminate].
  intros [= <-]. cbn [DisplayUrl]. unfold strSlice, relIndex.
  change (-5 <? 0)%Z with true. cbv iota.
  destruct (Z.ltb_spec (Z.of_nat (String.length s)) 0) as [?|_]; [lia|].
  rewrite Z.min_id.
  set (k := Z.to_nat (Z.max (Z.of_nat (String.length s) + -5) 0)).
  replace (Z.to_nat _) with (String.length s - k)%nat by lia.
  destruct (substring_suffix k s) as (pre & Hs & Hpre); [lia|].
  exists s, pre. split; [reflexivity|]. split; [exact Hs|].
  apply (f_equal String.length) in Hs. rewrite string_app_length, Hpre in Hs.
  lia.
Qed.

Local Close Scope string_scope.

(** X9. Every entry of the top 10 is labelled with the end of its
    ShortUrl: [DisplayUrl] is a suffix of the ShortUrl, of 5 characters, or
    the whole ShortUrl when that is shorter. *)
Theorem DisplayUrl_suffix (data : list ReelRecord) (m : Metric)
  (t : list Top10Entry) (e : Top10Entry) :
  newTop10 data m = Some t -> In e t ->
  exists s pre,
    ShortUrl (reel e) = Some s /\
    s = (pre ++ DisplayUrl e)%string /\
    String.length (DisplayUrl e) = Nat.min 5 (String.length s).
Proof.
  unfold newTop10. intros H He. apply mapE_Forall2 in H.
  remember (slice 0 10 (rankedData data m)) as l eqn:Hl. clear Hl.
  induction H as [|r e' l t' Hre _ IH]; [contradiction|].
  destruct He as [<-|He]; [|now apply IH].
  rewrite (withDisplayUrl_reel r e' Hre). now apply withDisplayUrl_suffix.
Qed.

Lemma DisplayUrl_suffix_example :
  exists t e,
    newTop10 (processedData sampleLog10 [exampleRow]) ByViews = Some t /\
    In e t /\
    exists s pre,
      ShortUrl (reel e) = Some s /\
      s = (pre ++ DisplayUrl e)%string /\
      String.length (DisplayUrl e) = Nat.min 5 (String.length s).
Proof.
  do 2 eexists. split; [reflexivity|]. split; [now left|].
  refine (DisplayUrl_suffix (processedData sampleLog10 [exampleRow]) ByViews
            _ _ eq_refl _). now left.
Defined.

(** ** The detail popover *)

Lemma find_first {A : Type} (q : A -> bool) (before after : list A) (a : A) :
  Forall (fun b => q b = false) before -> q a = true ->
  find q (before ++ a :: after) = Some a.
Proof.
  induction 1 as [|b before Hb _ IH]; intros Ha; cbn [app find].
  - now rewrite Ha.
  - rewrite Hb. now apply IH.
Qed.

(** X10. A click on a chart selects the first entry of the top 10 whose
    DisplayUrl is the clicked label; an entry that shares its DisplayUrl
    with an earlier one is never the one selected. *)
Theorem handleChartClick_first_match (before after : list Top10Entry)
  (entry : Top10Entry) (d : ChartEvent) (s : Selection) :
  activeLabel d = Some (DisplayUrl entry) ->
  DisplayUrl entry <> EmptyString ->
  Forall (fun e => DisplayUrl e <> DisplayUrl entry) before ->
  selectedReel (handleChartClick (before ++ entry :: after) (Some d) s)
  = Some entry.
Proof.
  intros Hlabel Hne Hbefore. unfold handleChartClick. rewrite Hlabel.
  destruct (String.eqb_spec (DisplayUrl entry) EmptyString); [contradiction|].
  rewrite find_first; [reflexivity| |apply String.eqb_refl].
  eapply Forall_impl; [|exact Hbefore]. intros e He.
  now apply String.eqb_neq.
Qed.

Lemma handleChartClick_first_match_example :
  exists t e1 e2 e3,
    newTop10 zeroViewsData ByViews = Some t /\
    t = [] ++ e1 :: [e2; e3] /\ DisplayUrl e2 = DisplayUrl e1 /\
    let d := {| activeLabel := Some (DisplayUrl e2); chartX := None;
                chartY := None |} in
    selectedReel (handleChartClick t (Some d) initialSelection) = Some e1.
Proof.
  do 4 eexists. split; [reflexivity|]. split; [reflexivity|].
  split; [reflexivity|].
  cbn zeta.
  match goal with
  | |- selectedReel (handleChartClick (?e1 :: ?aft) (Some ?d) ?s) = _ =>
      exact (handleChartClick_first_match [] aft e1 d s eq_refl
               ltac:(discriminate) (Forall_nil _))
  end.
Defined.

Lemma truthyNumber_orDefault v :
  truthyNumber (orDefault v 100) = true.
Proof.
  unfold orDefault. destruct v as [f|]; [|reflexivity].
  destruct (truthyNumber f) eqn:E; [exact E|reflexivity].
Qed.

Lemma handlePopoverEvent_invariant (top10Data : list Top10Entry)
  (s : Selection) (ev : PopoverEvent) :
  (forall e, selectedReel s = Some e ->
     In e top10Data /\ DisplayUrl e <> EmptyString /\
     truthyNumber (x (tooltipPosition s)) = true /\
     truthyNumber (y (tooltipPosition s)) = true) ->
  forall e, selectedReel (handlePopoverEvent top10Data s ev) = Some e ->
    In e top10Data /\ DisplayUrl e <> EmptyString /\
    truthyNumber (x (tooltipPosition (handlePopoverEvent top10Data s ev))) = true /\
    truthyNumber (y (tooltipPosition (handlePopoverEvent top10Data s ev))) = true.
Proof.
  intros Hs e. destruct ev as [[d|]|[[|]|]|]; cbn [handlePopoverEvent];
    try (apply Hs); try discriminate.
  unfold handleChartClick. destruct (activeLabel d) as [label|]; [|apply Hs].
  destruct (String.eqb_spec label EmptyString) as [|Hne]; [apply Hs|].
  destruct (find _ top10Data) as [r|] eqn:Hf; [|apply Hs].
  cbn [selectedReel tooltipPosition x y]. intros [= <-].
  apply find_some in Hf. destruct Hf as [Hin Heq].
  apply String.eqb_eq in Heq. rewrite Heq.
  auto using truthyNumber_orDefault.
Qed.

(** X11. Whatever happens to the popover (chart clicks, mouse-downs inside
    or outside, the close button), a selected reel is always an entry of
    the top 10 with a non-empty DisplayUrl, and the popover is placed at
    coordinates that are neither 0 nor NaN. *)
Theorem popover_invariant (top10Data : list Top10Entry)
  (events : list PopoverEvent) (e : Top10Entry) :
  let s := fold_left (handlePopoverEvent top10Data) events initialSelection in
  selectedReel s = Some e ->
  In e top10Data /\ DisplayUrl e <> EmptyString /\
  truthyNumber (x (tooltipPosition s)) = true /\
  truthyNumber (y (tooltipPosition s)) = true.
Proof.
  cbn zeta. revert e.
  assert (H0 : forall e, selectedReel initialSelection = Some e ->
            In e top10Data /\ DisplayUrl e <> EmptyString /\
            truthyNumber (x (tooltipPosition initialSelection)) = true /\
            truthyNumber (y (tooltipPosition initialSelection)) = true)
    by discriminate.
  revert H0. generalize initialSelection as s.
  induction events as [|ev events IH]; intros s Hs; cbn [fold_left];
    [exact Hs|].
  apply IH. now apply handlePopoverEvent_invariant.
Qed.

Lemma popover_invariant_example :
  exists t e,
    newTop10 hostData ByViews = Some t /\
    let events :=
      [ChartClick (Some {| activeLabel := Some "abc"%string;
                           chartX := Some 0%float; chartY := Some 40%float |});
       MouseDown (Some true)] in
    let s := fold_left (handlePopoverEvent t) events initialSelection in
    selectedReel s = Some e /\
    In e t /\ DisplayUrl e <> EmptyString /\
    truthyNumber (x (tooltipPosition s)) = true /\
    truthyNumber (y (tooltipPosition s)) = true.
Proof.
  do 2 eexists. split; [reflexivity|]. cbn zeta.
  split; [reflexivity|].
  match goal with
  | |- In ?e ?t /\ _ =>
      exact (popover_invariant t
               [ChartClick (Some {| activeLabel := Some "abc"%string;
                                    chartX := Some 0%float;
                                    chartY := Some 40%float |});
                MouseDown (Some true)] e eq_refl)
  end.
Defined.

(** X12. A mouse-down outside the popover and the close button clear the
    selection; a mouse-down inside it, a chart click without label, with an
    empty label or with a label that no entry carries leave the selection
    as it was. *)
Theorem popover_clear_or_keep (top10Data : list Top10Entry) (s : Selection)
  (d : ChartEvent) :
  selectedReel (handlePopoverEvent top10Data s (MouseDown (Some false))) = None /\
  selectedReel (handlePopoverEvent top10Data s CloseClick) = None /\
  handlePopoverEvent top10Data s (MouseDown (Some true)) = s /\
  handlePopoverEvent top10Data s (MouseDown None) = s /\
  handlePopoverEvent top10Data s (ChartClick None) = s /\
  (activeLabel d = None \/ activeLabel d = Some EmptyString \/
   (forall label, activeLabel d = Some label ->
      Forall (fun e => DisplayUrl e <> label) top10Data) ->
   handlePopoverEvent top10Data s (ChartClick (Some d)) = s).
Proof.
  repeat split. intros H. cbn [handlePopoverEvent]. unfold handleChartClick.
  destruct (activeLabel d) as [label|] eqn:Hl; [|reflexivity].
  destruct (String.eqb_spec label EmptyString) as [|Hne]; [reflexivity|].
  destruct H as [H|[H|H]]; [discriminate|congruence|].
  specialize (H label eq_refl).
  destruct (find _ top10Data) as [r|] eqn:Hf; [|reflexivity].
  apply find_some in Hf. destruct Hf as [Hin Heq].
  rewrite Forall_forall in H. apply String.eqb_eq in Heq.
  now apply H in Hin.
Qed.

(** ** The paging controls *)

Lemma paginatedData_length (l : list ReelRecord) (p : Z) :
  1 <= p ->
  List.length (paginatedData l p) =
  Nat.min 10 (List.length l - Z.to_nat ((p - 1) * 10)).
Proof.
  intros Hp. rewrite paginatedData_firstn_skipn by assumption.
  now rewrite length_firstn, length_skipn.
Qed.

Lemma nil_length_iff {A : Type} (l : list A) : l = [] <-> List.length l = 0%nat.
Proof. destruct l; cbn; split; congruence. Qed.

(** X13. On a page [p >= 1] the "Next" button is enabled exactly when the
    next page has rows, and exactly then its handler moves to that page;
    the "Previous" button is disabled exactly on page 1, where its handler
    stays. *)
Theorem next_enabled_iff (filtered : list ReelRecord) (p : Z) :
  1 <= p ->
  let n := Z.of_nat (List.length filtered) in
  (nextDisabled n p = false <-> paginatedData filtered (p + 1) <> []) /\
  (nextDisabled n p = false <-> nextPage n p = p + 1) /\
  (nextDisabled n p = true <-> nextPage n p = p) /\
  (previousDisabled p = true <-> p = 1) /\
  (previousDisabled p = true -> previousPage p = p) /\
  (previousDisabled p = false -> previousPage p = p - 1).
Proof.
  intros Hp n. unfold nextDisabled, nextPage, previousDisabled, previousPage,
    rowsPerPage.
  rewrite nil_length_iff, paginatedData_length by lia. fold n. subst n.
  destruct (Z.leb_spec (Z.of_nat (List.length filtered)) (p * 10));
    destruct (Z.ltb_spec (p * 10) (Z.of_nat (List.length filtered)));
    destruct (Z.eqb_spec p 1); try lia;
    repeat split; intros; try lia; try congruence.
Qed.

Lemma next_enabled_iff_example :
  let filtered := repeat (processRow sampleLog10 0 exampleRow) 23 in
  1 <= 2 /\
  let n := Z.of_nat (List.length filtered) in
  (nextDisabled n 2 = false <-> paginatedData filtered (2 + 1) <> []) /\
  (nextDisabled n 2 = false <-> nextPage n 2 = 2 + 1) /\
  (nextDisabled n 2 = true <-> nextPage n 2 = 2) /\
  (previousDisabled 2 = true <-> 2 = 1) /\
  (previousDisabled 2 = true -> previousPage 2 = 2) /\
  (previousDisabled 2 = false -> previousPage 2 = 2 - 1).
Proof.
  split; [lia|]. apply next_enabled_iff. lia.
Defined.

Lemma handleViewEvent_page_invariant (n : Z) (v : View) (ev : ViewEvent) :
  (forall f, ev <> SetFilterValue f) ->
  1 <= page v /\ (page v = 1 \/ (page v - 1) * 10 < n) ->
  1 <= page (handleViewEvent n v ev) /\
  (page (handleViewEvent n v ev) = 1 \/
   (page (handleViewEvent n v ev) - 1) * 10 < n).
Proof.
  intros Hev [H1 H2]. destruct ev; cbn [handleViewEvent page]; auto.
  - unfold previousPage. lia.
  - unfold nextPage, rowsPerPage. destruct (Z.ltb_spec (page v * 10) n); lia.
Qed.

(** X14. As long as the filter text is left alone, the paging buttons and
    the two selectors never lead to an empty page: from the initial view,
    after any such events over a filtered list of constant length, the
    page number is at least 1 and the page has rows whenever there are
    rows at all. *)
Theorem paging_stays_in_range (filtered : list ReelRecord)
  (events : list ViewEvent) :
  Forall (fun ev => forall f, ev <> SetFilterValue f) events ->
  let v := fold_left (handleViewEvent (Z.of_nat (List.length filtered)))
             events initialView in
  1 <= page v /\
  filterValue v = EmptyString /\
  (filtered <> [] -> paginatedData filtered (page v) <> []).
Proof.
  intros Hev. cbn zeta. set (n := Z.of_nat (List.length filtered)).
  assert (H : 1 <= page (fold_left (handleViewEvent n) events initialView) /\
              (page (fold_left (handleViewEvent n) events initialView) = 1 \/
               (page (fold_left (handleViewEvent n) events initialView) - 1) * 10 < n) /\
              filterValue (fold_left (handleViewEvent n) events initialView)
              = EmptyString).
  { assert (H0 : 1 <= page initialView /\
                 (page initialView = 1 \/ (page initialView - 1) * 10 < n) /\
                 filterValue initialView = EmptyString)
      by (cbn; auto with zarith).
    revert H0. generalize initialView as v.
    induction Hev as [|ev events Hne _ IH]; intros v Hv; cbn [fold_left];
      [exact Hv|].
    apply IH. destruct Hv as (H1 & H2 & H3).
    destruct (handleViewEvent_page_invariant n v ev Hne (conj H1 H2)) as [H4 H5].
    repeat split; try assumption.
    destruct ev; cbn [handleViewEvent filterValue]; try assumption.
    now specialize (Hne f). }
  destruct H as (H1 & H2 & H3). repeat split; try assumption.
  intros Hne. rewrite nil_length_iff in *. rewrite paginatedData_length by lia.
  subst n. lia.
Qed.

Lemma paging_stays_in_range_example :
  let filtered := repeat (processRow sampleLog10 0 exampleRow) 12 in
  let events := [Next; Next; SetSortOrder asc; Previous; Next; Next] in
  Forall (fun ev => forall f, ev <> SetFilterValue f) events /\
  let v := fold_left (handleViewEvent (Z.of_nat (List.length filtered)))
             events initialView in
  1 <= page v /\
  filterValue v = EmptyString /\
  (filtered <> [] -> paginatedData filtered (page v) <> []).
Proof.
  assert (H : Forall (fun ev => forall f, ev <> SetFilterValue f)
                [Next; Next; SetSortOrder asc; Previous; Next; Next])
    by (repeat constructor; discriminate).
  split; [exact H|].
  exact (paging_stays_in_range _ _ H).
Defined.

(** X15. The counter agrees with the table: on a page that starts within
    the rows (or on page 1 of an empty list), the number of rows shown is
    "to" minus "from" plus 1, every rank shown lies between "from" and
    "to", and the row with rank [k] is the [k]-th row of the filtered
    list. *)
Theorem showing_matches_page (filtered : list ReelRecord) (p : Z) :
  1 <= p ->
  (p - 1) * rowsPerPage <= Z.of_nat (List.length filtered) ->
  let n := Z.of_nat (List.length filtered) in
  Z.of_nat (List.length (paginatedData filtered p)) =
    showingTo n p - showingFrom p + 1 /\
  forall (index : nat) r,
    nth_error (paginatedData filtered p) index = Some r ->
    showingFrom p <= rowRank p (Z.of_nat index) <= showingTo n p /\
    nth_error filtered (Z.to_nat (rowRank p (Z.of_nat index) - 1)) = Some r.
Proof.
  intros Hp Hle n.
  unfold showingTo, showingFrom, rowRank, rowsPerPage in *. split.
  - rewrite paginatedData_length by assumption. subst n. lia.
  - intros index r Hr.
    assert (Hlt : (index < List.length (paginatedData filtered p))%nat)
      by (apply nth_error_Some; congruence).
    rewrite paginatedData_length in Hlt by assumption.
    rewrite paginatedData_firstn_skipn in Hr by assumption.
    rewrite nth_error_firstn, nth_error_skipn in Hr.
    destruct (Nat.ltb_spec index 10); [|discriminate].
    split; [subst n; lia|].
    rewrite <- Hr. f_equal. lia.
Qed.

Lemma showing_matches_page_example :
  let filtered := repeat (processRow sampleLog10 0 exampleRow) 23 in
  1 <= 3 /\
  (3 - 1) * rowsPerPage <= Z.of_nat (List.length filtered) /\
  let n := Z.of_nat (List.length filtered) in
  Z.of_nat (List.length (paginatedData filtered 3)) =
    showingTo n 3 - showingFrom 3 + 1 /\
  forall (index : nat) r,
    nth_error (paginatedData filtered 3) index = Some r ->
    showingFrom 3 <= rowRank 3 (Z.of_nat index) <= showingTo n 3 /\
    nth_error filtered (Z.to_nat (rowRank 3 (Z.of_nat index) - 1)) = Some r.
Proof.
  split; [lia|]. split; [cbn; lia|].
  apply showing_matches_page; [lia|cbn; lia].
Defined.

(** X16. Changing the filter text does not reset the page: after "Next" on
    an unfiltered list of more than 10 rows, a filter that leaves at most
    10 rows shows page 2 of them, which is empty; "Next" is then disabled
    and "Previous" leads back to page 1. *)
Theorem filter_keeps_page (toLowerCase : string -> string)
  (data : list ReelRecord) (f : string)
  (all some : list ReelRecord) :
  filteredData toLowerCase data (filterValue initialView) (sortOrder initialView)
    (rankingMetric initialView) = Some all ->
  (10 < List.length all)%nat ->
  let v1 := handleViewEvent (Z.of_nat (List.length all)) initialView Next in
  let v2 := handleViewEvent (Z.of_nat (List.length all)) v1 (SetFilterValue f) in
  filteredData toLowerCase data (filterValue v2) (sortOrder v2) (rankingMetric v2)
    = Some some ->
  (List.length some <= 10)%nat ->
  page v2 = 2 /\
  paginatedData some (page v2) = [] /\
  nextDisabled (Z.of_nat (List.length some)) (page v2) = true /\
  page (handleViewEvent (Z.of_nat (List.length some)) v2 Previous) = 1.
Proof.
  intros _ Hall v1 v2 _ Hsome.
  assert (Hp : page v2 = 2).
  { cbn. unfold nextPage, rowsPerPage.
    destruct (Z.ltb_spec (1 * 10) (Z.of_nat (List.length all))); lia. }
  rewrite Hp. repeat split.
  - apply nil_length_iff. rewrite paginatedData_length by lia. lia.
  - unfold nextDisabled, rowsPerPage. apply Z.leb_le. lia.
  - cbn [handleViewEvent page]. now rewrite Hp.
Qed.

Lemma filter_keeps_page_example :
  let data := processedData sampleLog10
                (repeat exampleRow 11 ++ tiedRows) in
  exists all some,
    filteredData asciiToLowerCase data (filterValue initialView) (sortOrder initialView)
      (rankingMetric initialView) = Some all /\
    (10 < List.length all)%nat /\
    let v1 := handleViewEvent (Z.of_nat (List.length all)) initialView Next in
    let v2 := handleViewEvent (Z.of_nat (List.length all)) v1 (SetFilterValue "r1") in
    filteredData asciiToLowerCase data (filterValue v2) (sortOrder v2) (rankingMetric v2)
      = Some some /\
    (0 < List.length some <= 10)%nat /\
    page v2 = 2 /\
    paginatedData some (page v2) = [] /\
    nextDisabled (Z.of_nat (List.length some)) (page v2) = true /\
    page (handleViewEvent (Z.of_nat (List.length some)) v2 Previous) = 1.
Proof.
  do 2 eexists.
  split; [vm_compute; reflexivity|]. split; [cbn; lia|]. cbn zeta.
  split; [vm_compute; reflexivity|]. split; [cbn; lia|].
  match goal with
  | |- page (handleViewEvent _ (handleViewEvent (Z.of_nat (List.length ?a)) _ _)
               (SetFilterValue ?f)) = 2 /\ paginatedData ?s _ = [] /\ _ =>
      refine (filter_keeps_page asciiToLowerCase
                (processedData sampleLog10 (repeat exampleRow 11 ++ tiedRows))
                f a s _ _ _ _)
  end.
  - vm_compute. reflexivity.
  - cbn. lia.
  - vm_compute. reflexivity.
  - cbn. lia.
Defined.

(** ** Non-finite values *)

Lemma is_nan_true_spec x : is_nan x = true -> Prim2SF x = S754_nan.
Proof.
  rewrite <- is_nan_spec. now destruct (Prim2SF x).
Qed.

Lemma is_nan_add_l a b : is_nan a = true -> is_nan (a + b)%float = true.
Proof.
  intros H. rewrite <- is_nan_spec, add_spec, (is_nan_true_spec a H).
  reflexivity.
Qed.

Lemma is_nan_add_r a b : is_nan b = true -> is_nan (a + b)%float = true.
Proof.
  intros H. rewrite <- is_nan_spec, add_spec, (is_nan_true_spec b H).
  now destruct (Prim2SF a).
Qed.

Lemma is_nan_div_l a b : is_nan a = true -> is_nan (a / b)%float = true.
Proof.
  intros H. rewrite <- is_nan_spec, div_spec, (is_nan_true_spec a H).
  reflexivity.
Qed.

Lemma is_nan_mul_l a b : is_nan a = true -> is_nan (a * b)%float = true.
Proof.
  intros H. rewrite <- is_nan_spec, mul_spec, (is_nan_true_spec a H).
  reflexivity.
Qed.

Lemma fold_left_add_nan {A : Type} (f : A -> float) (l : list A) : forall acc,
  is_nan acc = true \/ (exists r, In r l /\ is_nan (f r) = true) ->
  is_nan (fold_left (fun a y => (a + f y)%float) l acc) = true.
Proof.
  induction l as [|y l IH]; intros acc H; cbn [fold_left].
  - destruct H as [H|(r & [] & _)]. exact H.
  - apply IH. destruct H as [H|(r & [<-|Hin] & Hr)].
    + left. now apply is_nan_add_l.
    + left. now apply is_nan_add_r.
    + right. eauto.
Qed.

Lemma baseSum_nan {A : Type} (f : A -> float) (l : list A) (r : A) :
  In r l -> is_nan (f r) = true ->
  exists s, baseSum f l = Some s /\ is_nan s = true.
Proof.
  destruct l as [|a l]; [contradiction|]. intros Hin Hr.
  eexists. split; [reflexivity|]. apply fold_left_add_nan.
  destruct Hin as [<-|Hin]; [now left|right; eauto].
Qed.

(** X17. One NaN spoils the statistics: if any record has a NaN engagement
    rate (score, number of views), the average engagement rate (average
    score, total of views) shown is NaN. *)
Theorem stats_nan (data : list ReelRecord) (r : ReelRecord) :
  In r data ->
  (is_nan (EngagementRate r) = true ->
   is_nan (avgEngagementRate (stats data)) = true) /\
  (is_nan (EngagementScore r) = true ->
   is_nan (avgEngagementScore (stats data)) = true) /\
  (is_nan (Views (row r)) = true ->
   is_nan (totalViews (stats data)) = true).
Proof.
  intros Hin. unfold stats, meanBy, sumBy.
  cbn [avgEngagementRate avgEngagementScore totalViews].
  repeat split; intros Hr.
  - destruct (baseSum_nan EngagementRate data r Hin Hr) as (s & -> & Hs).
    now apply is_nan_div_l.
  - destruct (baseSum_nan EngagementScore data r Hin Hr) as (s & -> & Hs).
    now apply is_nan_div_l.
  - destruct (baseSum_nan (fun r => Views (row r)) data r Hin Hr)
      as (s & -> & Hs). exact Hs.
Qed.

Lemma stats_nan_example :
  exists r,
    In r zeroViewsData /\
    is_nan (EngagementRate r) = true /\
    is_nan (avgEngagementRate (stats zeroViewsData)) = true.
Proof.
  eexists. split; [right; left; reflexivity|]. split; [reflexivity|].
  match goal with
  | |- is_nan (avgEngagementRate (stats ?d)) = true =>
      exact (proj1 (stats_nan d (nth 1 d bareRecord)
                      (or_intror (or_introl eq_refl))) eq_refl)
  end.
Defined.

(** X18. A row without views divides by zero, and the zero may be [+0] or
    [-0], which both compare equal to 0: with no likes and comments
    either, its engagement rate is NaN; with some, it is +Infinity for
    [+0] views and -Infinity for [-0] views. *)
Theorem zero_views_rate (log10 : float -> float) (index : Z) (r : Row) :
  (Views r =? 0)%float = true ->
  ((Likes r + Comments r =? 0)%float = true ->
   is_nan (EngagementRate (processRow log10 index r)) = true) /\
  ((0 <? Likes r + Comments r)%float = true ->
   (Views r = 0%float /\
    EngagementRate (processRow log10 index r) = infinity) \/
   (Views r = neg_zero /\
    EngagementRate (processRow log10 index r) = neg_infinity)).
Proof.
  intros Hv. cbn [processRow EngagementRate].
  assert (Hz : Views r = 0%float \/ Views r = neg_zero).
  { rewrite eqb_spec in Hv. unfold SFeqb in Hv.
    change (Prim2SF 0) with (S754_zero false) in Hv.
    destruct (Prim2SF (Views r)) as [s|s| |s m ex] eqn:E; try discriminate;
      [|destruct s; discriminate|destruct s; discriminate].
    destruct s; [right|left]; apply Prim2SF_inj; rewrite E; reflexivity. }
  set (e := (Likes r + Comments r)%float). split; intros H.
  - assert (Hd : forall z, z = 0%float \/ z = neg_zero ->
                           is_nan (e / z * 100)%float = true).
    { intros z Hzz. apply is_nan_mul_l. rewrite <- is_nan_spec, div_spec.
      rewrite eqb_spec in H. unfold SFeqb in H.
      change (Prim2SF 0) with (S754_zero false) in H.
      destruct Hzz as [->| ->];
        [change (Prim2SF 0) with (S754_zero false)
        |change (Prim2SF neg_zero) with (S754_zero true)];
        destruct (Prim2SF e) as [s|s| |s m ex]; try discriminate;
        try reflexivity; destruct s; discriminate. }
    now apply Hd.
  - assert (Hpos : exists m ex, Prim2SF e = S754_finite false m ex \/
                                Prim2SF e = S754_infinity false).
    { rewrite ltb_spec in H. unfold SFltb in H.
      change (Prim2SF 0) with (S754_zero false) in H.
      destruct (Prim2SF e) as [s|s| |s m ex] eqn:E; try discriminate;
        destruct s; try discriminate.
      - exists 1%positive, 0. now right.
      - exists m, ex. now left. }
    destruct Hpos as (m & ex & Hpos).
    destruct Hz as [Hz|Hz]; [left|right]; (split; [exact Hz|]); rewrite Hz.
    + assert (Hd : (e / 0)%float = infinity).
      { apply Prim2SF_inj. rewrite div_spec.
        change (Prim2SF 0) with (S754_zero false).
        change (Prim2SF infinity) with (S754_infinity false).
        destruct Hpos as [-> | ->]; reflexivity. }
      now rewrite Hd.
    + assert (Hd : (e / neg_zero)%float = neg_infinity).
      { apply Prim2SF_inj. rewrite div_spec.
        change (Prim2SF neg_zero) with (S754_zero true).
        change (Prim2SF neg_infinity) with (S754_infinity true).
        destruct Hpos as [-> | ->]; reflexivity. }
      now rewrite Hd.
Qed.

(** Four interactions and no views: the rate is +Infinity, and -Infinity
    when the views are [-0]. *)
Lemma zero_views_rate_example :
  let r := {| Reel := "https://x/y/a4"; Views := 0; Likes := 3; Comments := 1 |} in
  let r' := {| Reel := "https://x/y/a4"; Views := neg_zero; Likes := 3;
               Comments := 1 |} in
  ((Views r =? 0)%float = true /\
   (0 <? Likes r + Comments r)%float = true /\
   EngagementRate (processRow sampleLog10 0 r) = infinity) /\
  ((Views r' =? 0)%float = true /\
   (0 <? Likes r' + Comments r')%float = true /\
   EngagementRate (processRow sampleLog10 0 r') = neg_infinity).
Proof.
  intros r r'. split.
  - split; [reflexivity|]. split; [reflexivity|].
    destruct (proj2 (zero_views_rate sampleLog10 0 r eq_refl) eq_refl)
      as [[_ H]|[H _]]; [exact H|discriminate H].
  - split; [reflexivity|]. split; [reflexivity|].
    destruct (proj2 (zero_views_rate sampleLog10 0 r' eq_refl) eq_refl)
      as [[H _]|[_ H]]; [|exact H].
    exfalso. apply (f_equal Prim2SF) in H. discriminate H.
Defined.

(** X19. A reel without comments has the same engagement score as
    engagement rate. *)
Theorem no_comments_score_is_rate (log10 : float -> float) (index : Z) (r : Row) :
  Comments r = 0%float ->
  EngagementScore (processRow log10 index r) =
  EngagementRate (processRow log10 index r).
Proof.
  intros Hc. cbn [processRow EngagementScore EngagementRate].
  rewrite Hc, mul_1_r. reflexivity.
Qed.

Lemma no_comments_score_is_rate_example :
  let r := {| Reel := "https://x/y/a5"; Views := 40; Likes := 3; Comments := 0 |} in
  Comments r = 0%float /\
  EngagementScore (processRow sampleLog10 0 r) =
  EngagementRate (processRow sampleLog10 0 r).
Proof.
  split; [reflexivity|].
  exact (no_comments_score_is_rate sampleLog10 0
           {| Reel := "https://x/y/a5"; Views := 40; Likes := 3;
              Comments := 0 |} eq_refl).
Defined.

(** ** Formatting and labels *)

Lemma leb_nan_r x y : is_nan y = true -> (x <=? y)%float = false.
Proof.
  intros H. rewrite leb_spec, (is_nan_true_spec y H). unfold SFleb.
  now destruct (Prim2SF x).
Qed.

Lemma ltb_true_not_nan x y : (x <? y)%float = true -> is_nan x = false.
Proof.
  rewrite ltb_spec, <- is_nan_spec. unfold SFltb.
  now destruct (Prim2SF x).
Qed.

Lemma rank_thousands :
  rank 1000 < rank 1000000 /\ rank 1000000 < rank 1000000000.
Proof. split; vm_compute; reflexivity. Qed.

(** X20. [formatNumber] hands a number back untouched exactly when it is
    NaN or below 1000 (negative numbers included).  From 1000 up it gives
    [toFixed(1)] of the number divided by a thousand with the suffix K
    below a million, divided by a million with the suffix M below a
    billion, and divided by a billion with the suffix B from there on. *)
Theorem formatNumber_cases (toFixed : float -> nat -> string) (num : float) :
  (formatNumber toFixed num = inr num <->
   is_nan num = true \/ (num <? 1000)%float = true) /\
  ((1000 <=? num)%float = true -> (num <? 1000000)%float = true ->
   formatNumber toFixed num =
   inl (toFixed (num / 1000)%float 1%nat ++ "K")%string) /\
  ((1000000 <=? num)%float = true -> (num <? 1000000000)%float = true ->
   formatNumber toFixed num =
   inl (toFixed (num / 1000000)%float 1%nat ++ "M")%string) /\
  ((1000000000 <=? num)%float = true ->
   formatNumber toFixed num =
   inl (toFixed (num / 1000000000)%float 1%nat ++ "B")%string).
Proof.
  destruct rank_thousands as [H1 H2].
  assert (Hiff : (1000 <=? num)%float = false <->
                 is_nan num = true \/ (num <? 1000)%float = true).
  { destruct (is_nan num) eqn:Hn.
    - rewrite leb_nan_r by assumption. tauto.
    - rewrite leb_rank, ltb_rank by (assumption || reflexivity).
      rewrite Z.leb_gt, Z.ltb_lt. split; [now right|].
      now intros [?|?]. }
  assert (Hsmall : (1000 <=? num)%float = false ->
                   formatNumber toFixed num = inr num).
  { intros H. unfold formatNumber. rewrite H.
    destruct (is_nan num) eqn:Hn.
    - now rewrite !leb_nan_r by assumption.
    - rewrite leb_rank in H by (assumption || reflexivity).
      apply Z.leb_gt in H.
      rewrite !leb_rank by (assumption || reflexivity).
      destruct (Z.leb_spec (rank 1000000000) (rank num)); [lia|].
      destruct (Z.leb_spec (rank 1000000) (rank num)); [lia|reflexivity]. }
  split; [|split; [|split]].
  - rewrite <- Hiff. split; [|exact Hsmall].
    intros H. apply not_true_is_false. intros E.
    unfold formatNumber in H. rewrite E in H.
    destruct (1000000000 <=? num)%float; [discriminate|].
    destruct (1000000 <=? num)%float; discriminate.
  - intros Hge Hlt. pose proof (ltb_true_not_nan _ _ Hlt) as Hn.
    unfold formatNumber. rewrite Hge.
    rewrite ltb_rank in Hlt by (assumption || reflexivity).
    apply Z.ltb_lt in Hlt.
    rewrite !leb_rank by (assumption || reflexivity).
    destruct (Z.leb_spec (rank 1000000000) (rank num)); [lia|].
    destruct (Z.leb_spec (rank 1000000) (rank num)); [lia|reflexivity].
  - intros Hge Hlt. pose proof (ltb_true_not_nan _ _ Hlt) as Hn.
    unfold formatNumber. rewrite Hge.
    rewrite ltb_rank in Hlt by (assumption || reflexivity).
    apply Z.ltb_lt in Hlt.
    rewrite leb_rank by (assumption || reflexivity).
    destruct (Z.leb_spec (rank 1000000000) (rank num)); [lia|reflexivity].
  - intros Hge. unfold formatNumber. now rewrite Hge.
Qed.

(** 1500 is shown in thousands, 2500000 in millions, 3000000000 in
    billions, whatever [toFixed] prints. *)
Lemma formatNumber_cases_example :
  let toFixed := fun (_ : float) (_ : nat) => "1.5"%string in
  ((1000 <=? 1500)%float = true /\ (1500 <? 1000000)%float = true /\
   formatNumber toFixed 1500 = inl "1.5K"%string) /\
  ((1000000 <=? 2500000)%float = true /\
   (2500000 <? 1000000000)%float = true /\
   formatNumber toFixed 2500000 = inl "1.5M"%string) /\
  ((1000000000 <=? 3000000000)%float = true /\
   formatNumber toFixed 3000000000 = inl "1.5B"%string).
Proof.
  intros toFixed. split; [|split].
  - split; [reflexivity|]. split; [reflexivity|].
    exact (proj1 (proj2 (formatNumber_cases toFixed 1500)) eq_refl eq_refl).
  - split; [reflexivity|]. split; [reflexivity|].
    exact (proj1 (proj2 (proj2 (formatNumber_cases toFixed 2500000)))
             eq_refl eq_refl).
  - split; [reflexivity|].
    exact (proj2 (proj2 (proj2 (formatNumber_cases toFixed 3000000000)))
             eq_refl).
Defined.

(** X21. [getMetricLabel] gives the six options of the selector six
    different labels, and it leaves a label alone: labelling twice is
    labelling once, for every string. *)
Theorem getMetricLabel_labels :
  (forall m1 m2 : Metric,
     getMetricLabel (metricKey m1) = getMetricLabel (metricKey m2) -> m1 = m2) /\
  (forall metric : string,
     getMetricLabel (getMetricLabel metric) = getMetricLabel metric).
Proof.
  split.
  - intros [] []; cbn; intros H; try reflexivity; discriminate H.
  - intros metric. unfold getMetricLabel at 2 3.
    repeat match goal with
    | |- context [String.eqb metric ?k] =>
        destruct (String.eqb_spec metric k) as [->|?]; [reflexivity|]
    end.
    unfold getMetricLabel.
    repeat match goal with
    | H : metric <> ?k |- context [String.eqb metric ?k] =>
        rewrite (proj2 (String.eqb_neq metric k) H)
    end.
    reflexivity.
Qed.

(** X22. In the tooltip of the bar chart the two-decimal format is never
    used: the bar is named by its label, which is neither "EngagementRate"
    nor "EngagementScore", so every value goes through [formatNumber], and
    the name shown is that label. *)
Theorem barTooltip_uses_formatNumber (toFixed : float -> nat -> string)
  (value : float) (rankingMetric : Metric) :
  barTooltipFormatter toFixed value (barName rankingMetric) =
  (formatNumber toFixed value, barName rankingMetric).
Proof. destruct rankingMetric; reflexivity. Qed.

(** X23. In the tooltip of the line chart both lines, "Views" and
    "Engagement Score", are shown under the name "Views", their values
    formatted by [formatNumber]. *)
Theorem lineTooltip_names (toFixed : float -> nat -> string)
  (value : float) (name : string) :
  In name lineNames ->
  lineTooltipFormatter toFixed value name =
  (formatNumber toFixed value, "Views"%string).
Proof. intros [<-|[<-|[]]]; reflexivity. Qed.

Lemma lineTooltip_names_example :
  let toFixed := fun (_ : float) (_ : nat) => "1.5"%string in
  In "Engagement Score"%string lineNames /\
  lineTooltipFormatter toFixed 13 "Engagement Score" =
  (formatNumber toFixed 13, "Views"%string).
Proof.
  assert (H : In "Engagement Score"%string lineNames) by (right; now left).
  split; [exact H|].
  exact (lineTooltip_names _ 13 _ H).
Defined.
